(** * Complexity analyzer for PRD / architecture documents

  A shallow embedding of [scripts/analyze.py]: the [ComplexityFactors]
  dataclass with its scoring methods, and the [ComplexityAnalyzer]
  class with its pattern table, [analyze], [extract_feature_name] and
  [extract_project_name].

  Python values are modelled as the interpreter has them:
  - [int] is [Z];
  - [float] is IEEE-754 binary64, through the executable specification
    of the Standard Library ([SpecFloat], precision 53, emax 1024);
    the implicit [int]-to-[float] coercions of mixed arithmetic are
    written out, and their [OverflowError] is the [None] of [option];
  - [str] is [string]: text whose characters are code points below 256,
    with the case mapping and the whitespace that Python gives them;
  - the [ranges] dictionary is a [gmap] with string keys;
  - the regular expressions of module [re] are parsed from the very
    pattern strings of the source and run by a backtracking matcher. *)

From Stdlib Require Import ZArith QArith Qabs Qround Lia List Bool Ascii String.
From Stdlib Require Import Floats.SpecFloat.
From Stdlib Require DecimalString.
From stdpp Require Import base option strings gmap.
Import ListNotations.

Open Scope Z_scope.

(** ** Python's numbers *)

Module Py.

(** [float]: binary64. *)
Definition float : Type := spec_float.
Definition prec : Z := 53.
Definition emax : Z := 1024.

Definition fadd : float -> float -> float := SFadd prec emax.
Definition fmul : float -> float -> float := SFmul prec emax.
Definition fdiv : float -> float -> float := SFdiv prec emax.
Definition fle (x y : float) : bool := SFleb x y.
Definition flt (x y : float) : bool := SFltb x y.

(** The binary64 number nearest to [m * 2^e] (ties to even). *)
Definition scaled (m e : Z) : float := binary_normalize prec emax m e false.

(** The literal [1.5]. *)
Definition f1_5 : float := scaled 3 (-1).

(** [float(n)]: correctly rounded; [OverflowError] when [n] is too
    large for a finite binary64. *)
Definition float_of_int (n : Z) : option float :=
  match scaled n 0 with
  | S754_infinity _ => None
  | x => Some x
  end.

(** [int(x)]: truncation towards zero; [OverflowError] on an infinity,
    [ValueError] on a NaN. *)
Definition int_of_float (x : float) : option Z :=
  match x with
  | S754_zero _ => Some 0
  | S754_finite s m e => Some (cond_Zopp s (Z.shiftl (Zpos m) e))
  | S754_infinity _ | S754_nan => None
  end.

(** Mixed arithmetic: the [int] operand is coerced with [float]. *)
Definition int_mul_float (n : Z) (x : float) : option float :=
  y ← float_of_int n; Some (fmul y x).
Definition int_add_float (n : Z) (x : float) : option float :=
  y ← float_of_int n; Some (fadd y x).
Definition float_add_int (x : float) (n : Z) : option float :=
  y ← float_of_int n; Some (fadd x y).
Definition float_add_float (x y : float) : option float :=
  Some (fadd x y).
(** [x / n]: [ZeroDivisionError] when [n] is zero. *)
Definition float_div_int (x : float) (n : Z) : option float :=
  if n =? 0 then None else y ← float_of_int n; Some (fdiv x y).
(** [x <= n] for a small constant [n] (exactly representable, which is
    what Python's exact comparison of a float with an int amounts to);
    false on a NaN. *)
Definition float_le_int (x : float) (n : Z) : bool := fle x (scaled n 0).
Definition int_le_float (n : Z) (x : float) : bool := fle (scaled n 0) x.
Definition int_lt_float (n : Z) (x : float) : bool := flt (scaled n 0) x.

(** The exact value of a finite float, as a rational. *)
Definition Q_of_float (x : float) : option Q :=
  match x with
  | S754_zero _ => Some 0%Q
  | S754_finite s m e =>
      Some (inject_Z (cond_Zopp s (Zpos m)) * (2 ^ e))%Q
  | S754_infinity _ | S754_nan => None
  end.

(** The binary64 number nearest to a rational whose reduced numerator
    and denominator are below [2^53]: the correctly rounded quotient of
    the two. *)
Definition round_Q (q : Q) : float :=
  let r := Qred q in
  fdiv (scaled (Qnum r) 0) (scaled (Zpos (Qden r)) 0).

End Py.

(** ** Python's strings and regular expressions *)

Module Re.

(** Text is a list of characters, each a code point below 256: the
    texts of Latin-1.  Python's [str] holds any code point; on the
    others [lower] and [re.IGNORECASE] do more than is modelled here
    (the long s, U+017F, matches [s]; the Kelvin sign, U+212A, matches
    [k]), so that what is proved of a text is proved of the texts of
    Latin-1. *)
Definition str : Type := list ascii.

Definition code (c : ascii) : N := N_of_ascii c.
Definition between (lo hi c : ascii) : bool :=
  (code lo <=? code c)%N && (code c <=? code hi)%N.
Definition is_upper (c : ascii) : bool := between "A" "Z" c.
Definition is_lower (c : ascii) : bool := between "a" "z" c.
Definition is_digit (c : ascii) : bool := between "0" "9" c.
Definition is_alnum (c : ascii) : bool := is_upper c || is_lower c || is_digit c.
(** Whitespace, as [str.isspace] and [\s] have it below 256: tab to
    carriage return, the four separators 28 to 31, space, next line (133)
    and no-break space (160). *)
Definition is_space (c : ascii) : bool :=
  between "009" "013" c || between "028" " " c
  || (c =? "133")%char || (c =? "160")%char.
(** The capital letters of Latin-1 beyond ASCII: 192 to 222 but for the
    multiplication sign 215. *)
Definition is_upper_latin1 (c : ascii) : bool :=
  between "192" "222" c && negb (c =? "215")%char.
(** [str.lower], character by character. *)
Definition lower (c : ascii) : ascii :=
  if is_upper c || is_upper_latin1 c then ascii_of_N (code c + 32) else c.
Definition upper (c : ascii) : ascii :=
  if is_lower c then ascii_of_N (code c - 32) else c.
Definition newline : ascii := "010".

(** *** Abstract syntax *)

Inductive item : Type :=
| Range (lo hi : ascii)        (* [lo-hi], a single character as [c-c] *)
| Space                        (* \s *)
| Digit.                       (* \d *)

Inductive regex : Type :=
| Eps                          (* the empty pattern *)
| Chr (c : ascii)              (* a literal character *)
| Dot                          (* . : any character but a newline *)
| Set_ (neg : bool) (items : list item)   (* [...] and [^...] *)
| Cat (a b : regex)
| Alt (a b : regex)            (* a|b, [a] tried first *)
| Star (greedy : bool) (a : regex)        (* a* and a*? *)
| Grp (n : nat) (a : regex)    (* the n-th capturing group *)
| Eos.                         (* $ *)

Definition plus (greedy : bool) (a : regex) : regex := Cat a (Star greedy a).
Definition opt (greedy : bool) (a : regex) : regex :=
  if greedy then Alt a Eps else Alt Eps a.

(** *** Parsing a pattern string

    The subset of the syntax that the program's patterns use; anything
    else ([{m,n}], [^] outside a set, back-references, look-around,
    [\b], ...) is refused with [None]. *)

Definition cat (a b : regex) : regex :=
  match b with Eps => a | _ => Cat a b end.

Definition escape_item (c : ascii) : option item :=
  if (c =? "s")%char then Some Space
  else if (c =? "d")%char then Some Digit
  else if (c =? "n")%char then Some (Range newline newline)
  else if is_alnum c then None
  else Some (Range c c).

Fixpoint parse_items (fuel : nat) (s : str) : option (list item * str) :=
  match fuel with
  | O => None
  | S fuel =>
      match s with
      | [] => None
      | c :: s1 =>
          if (c =? "]")%char then Some ([], s1)
          else if (c =? "\")%char then
            match s1 with
            | [] => None
            | e :: s2 =>
                i ← escape_item e;
                '(its, s3) ← parse_items fuel s2;
                Some (i :: its, s3)
            end
          else
            match s1 with
            | d :: hi :: s3 =>
                if (d =? "-")%char && negb (hi =? "]")%char then
                  if (hi =? "\")%char then None
                  else if (code c <=? code hi)%N then
                    '(its, s4) ← parse_items fuel s3;
                    Some (Range c hi :: its, s4)
                  else None
                else
                  '(its, s4) ← parse_items fuel s1;
                  Some (Range c c :: its, s4)
            | _ =>
                '(its, s4) ← parse_items fuel s1;
                Some (Range c c :: its, s4)
            end
      end
  end.

Definition parse_set (s : str) : option (regex * str) :=
  match s with
  | [] => None
  | c :: s1 =>
      let '(neg, s2) := if (c =? "^")%char then (true, s1) else (false, s) in
      match s2 with
      | [] => None
      | d :: _ =>
          if (d =? "]")%char then None
          else
            '(its, s3) ← parse_items (S (length s2)) s2;
            Some (Set_ neg its, s3)
      end
  end.

Definition parse_escape (c : ascii) : option regex :=
  i ← escape_item c;
  match i with
  | Range lo _ => Some (Chr lo)
  | _ => Some (Set_ false [i])
  end.

(** The quantifier that may follow an atom. *)
Definition parse_quantifier (a : regex) (s : str) : option (regex * str) :=
  match s with
  | q :: s1 =>
      let '(greedy, s2) :=
        match s1 with
        | l :: s2 => if (l =? "?")%char then (false, s2) else (true, s1)
        | [] => (true, s1)
        end in
      if (q =? "*")%char then Some (Star greedy a, s2)
      else if (q =? "+")%char then Some (plus greedy a, s2)
      else if (q =? "?")%char then Some (opt greedy a, s2)
      else if (q =? "{")%char then None
      else Some (a, s)
  | [] => Some (a, s)
  end.

Definition expect_close (s : str) : option str :=
  match s with
  | c :: s1 => if (c =? ")")%char then Some s1 else None
  | [] => None
  end.

(** [g] counts the capturing groups opened so far. *)
Fixpoint parse_alt (fuel g : nat) (s : str) : option (regex * nat * str) :=
  match fuel with
  | O => None
  | S fuel =>
      '(a, g1, s1) ← parse_seq fuel g s;
      match s1 with
      | c :: s2 =>
          if (c =? "|")%char then
            '(b, g2, s3) ← parse_alt fuel g1 s2;
            Some (Alt a b, g2, s3)
          else Some (a, g1, s1)
      | [] => Some (a, g1, s1)
      end
  end
with parse_seq (fuel g : nat) (s : str) : option (regex * nat * str) :=
  match fuel with
  | O => None
  | S fuel =>
      match s with
      | [] => Some (Eps, g, s)
      | c :: _ =>
          if (c =? "|")%char || (c =? ")")%char then Some (Eps, g, s)
          else
            '(a, g1, s1) ← parse_atom fuel g s;
            '(q, s2) ← parse_quantifier a s1;
            '(b, g2, s3) ← parse_seq fuel g1 s2;
            Some (cat q b, g2, s3)
      end
  end
with parse_atom (fuel g : nat) (s : str) : option (regex * nat * str) :=
  match fuel with
  | O => None
  | S fuel =>
      match s with
      | [] => None
      | c :: s1 =>
          if (c =? "(")%char then
            match s1 with
            | q :: s2 =>
                if (q =? "?")%char then
                  match s2 with
                  | k :: s3 =>
                      if (k =? ":")%char then
                        '(a, g1, s4) ← parse_alt fuel g s3;
                        s5 ← expect_close s4;
                        Some (a, g1, s5)
                      else None
                  | [] => None
                  end
                else
                  '(a, g1, s4) ← parse_alt fuel (S g) s1;
                  s5 ← expect_close s4;
                  Some (Grp (S g) a, g1, s5)
            | [] => None
            end
          else if (c =? "[")%char then
            '(a, s2) ← parse_set s1; Some (a, g, s2)
          else if (c =? "\")%char then
            match s1 with
            | e :: s2 => a ← parse_escape e; Some (a, g, s2)
            | [] => None
            end
          else if (c =? ".")%char then Some (Dot, g, s1)
          else if (c =? "$")%char then Some (Eos, g, s1)
          else if (c =? "^")%char || (c =? "*")%char || (c =? "+")%char
                  || (c =? "?")%char || (c =? "{")%char then None
          else Some (Chr c, g, s1)
      end
  end.

(** [re.compile]: [None] stands for [re.error]. *)
Definition compile (pattern : string) : option regex :=
  let s := list_ascii_of_string pattern in
  match parse_alt (3 * length s + 3) 0 s with
  | Some (r, _, []) => Some r
  | _ => None
  end.

(** *** Matching

    A backtracking matcher in continuation-passing style, with the
    priorities of [re]: the left branch of an alternation first, a
    greedy loop iterates before it stops and a lazy one stops before it
    iterates.  [ic] is the flag [re.IGNORECASE]. *)

(** The text of the capturing groups that took part in the match. *)
Definition caps : Type := list (nat * str).

Fixpoint group (cs : caps) (n : nat) : option str :=
  match cs with
  | [] => None
  | (m, t) :: cs' => if (m =? n)%nat then Some t else group cs' n
  end.

Definition chr_match (ic : bool) (c x : ascii) : bool :=
  if ic then (lower c =? lower x)%char else (c =? x)%char.

Definition item_match (x : ascii) (i : item) : bool :=
  match i with
  | Range lo hi => between lo hi x
  | Space => is_space x
  | Digit => is_digit x
  end.

Definition set_match (ic neg : bool) (items : list item) (x : ascii) : bool :=
  let hit :=
    if ic then existsb (item_match (lower x)) items
               || existsb (item_match (upper x)) items
    else existsb (item_match x) items in
  xorb neg hit.

(** What is left of the text after the match, and the groups. *)
Definition result : Type := str * caps.
Definition cont : Type := str -> caps -> option result.

Definition or_else (a : option result) (b : unit -> option result) :
  option result :=
  match a with Some r => Some r | None => b tt end.

(** The loop of a star.  [n] bounds the length of [s]; an iteration has
    to consume at least one character. *)
Fixpoint star_loop (body : str -> caps -> cont -> option result)
    (greedy : bool) (k : cont) (n : nat) (s : str) (cs : caps) :
    option result :=
  let more (_ : unit) :=
    match n with
    | O => None
    | S n' =>
        body s cs (fun s' cs' =>
          if (length s' <? length s)%nat
          then star_loop body greedy k n' s' cs' else None)
    end in
  if greedy then or_else (more tt) (fun _ => k s cs)
  else or_else (k s cs) more.

Fixpoint run (r : regex) (ic : bool) (s : str) (cs : caps) (k : cont) :
    option result :=
  match r with
  | Eps => k s cs
  | Chr c =>
      match s with
      | x :: s' => if chr_match ic c x then k s' cs else None
      | [] => None
      end
  | Dot =>
      match s with
      | x :: s' => if (x =? newline)%char then None else k s' cs
      | [] => None
      end
  | Set_ neg items =>
      match s with
      | x :: s' => if set_match ic neg items x then k s' cs else None
      | [] => None
      end
  | Cat a b => run a ic s cs (fun s' cs' => run b ic s' cs' k)
  | Alt a b => or_else (run a ic s cs k) (fun _ => run b ic s cs k)
  | Star greedy a => star_loop (run a ic) greedy k (length s) s cs
  | Grp n a =>
      run a ic s cs (fun s' cs' =>
        k s' ((n, firstn (length s - length s') s) :: cs'))
  | Eos =>
      match s with
      | [] => k s cs
      | [x] => if (x =? newline)%char then k s cs else None
      | _ => None
      end
  end.

(** A match at the start of [s]. *)
Definition match_here (r : regex) (ic : bool) (s : str) : option result :=
  run r ic s [] (fun s' cs => Some (s', cs)).

(** [re.search]: the leftmost match. *)
Fixpoint search (r : regex) (ic : bool) (s : str) : option result :=
  match match_here r ic s with
  | Some m => Some m
  | None =>
      match s with
      | [] => None
      | _ :: s' => search r ic s'
      end
  end.

(** [len(re.findall(...))]: the matches found from left to right, each
    starting where the one before ended. *)
Fixpoint count_matches (r : regex) (ic : bool) (n : nat) (s : str) : nat :=
  match n with
  | O => O
  | S n' =>
      match match_here r ic s with
      | Some (s', _) =>
          if (length s' <? length s)%nat
          then S (count_matches r ic n' s')
          else S (match s with
                  | [] => O
                  | _ :: t => count_matches r ic n' t
                  end)
      | None =>
          match s with
          | [] => O
          | _ :: t => count_matches r ic n' t
          end
      end
  end.

Definition findall_count (r : regex) (ic : bool) (s : str) : nat :=
  count_matches r ic (S (length s)) s.

(** [re.sub] with a constant replacement, for a pattern that has no
    empty match. *)
Fixpoint sub_from (r : regex) (repl : str) (n : nat) (s : str) : str :=
  match n with
  | O => s
  | S n' =>
      match s with
      | [] => []
      | c :: t =>
          match match_here r false s with
          | Some (s', _) =>
              if (length s' <? length s)%nat
              then repl ++ sub_from r repl n' s'
              else c :: sub_from r repl n' t
          | None => c :: sub_from r repl n' t
          end
      end
  end.

Definition sub (r : regex) (repl : str) (s : str) : str :=
  sub_from r repl (length s) s.

(** *** String methods *)

Definition str_lower (s : str) : str := map lower s.

Fixpoint lstrip (p : ascii -> bool) (s : str) : str :=
  match s with
  | c :: s' => if p c then lstrip p s' else s
  | [] => []
  end.
Definition strip_with (p : ascii -> bool) (s : str) : str :=
  rev (lstrip p (rev (lstrip p s))).
(** [s.strip()] and [s.strip("-")]. *)
Definition strip (s : str) : str := strip_with is_space s.
Definition strip_chars (chars : str) (s : str) : str :=
  strip_with (fun c => existsb (Ascii.eqb c) chars) s.

(** *** The functions of module [re], on strings

    [None] stands for [re.error], raised for a pattern that does not
    compile. *)

Definition findall_len (pattern text : string) (ic : bool) : option nat :=
  r ← compile pattern;
  Some (findall_count r ic (list_ascii_of_string text)).

(** [re.search]: the inner option is the match object or [None]. *)
Definition search_groups (pattern text : string) (ic : bool) :
  option (option caps) :=
  r ← compile pattern;
  Some (snd <$> search r ic (list_ascii_of_string text)).

Definition sub_str (pattern repl : string) (text : str) : option str :=
  r ← compile pattern;
  Some (sub r (list_ascii_of_string repl) text).

End Re.

(** ** The dataclass [ComplexityFactors] *)

Record ComplexityFactors : Type := mkFactors {
  functional_requirements : Z;
  integration_points : Z;
  ui_components : Z;
  database_changes : Z;
  external_apis : Z;
  authentication_features : Z;
  file_operations : Z;
  real_time_features : Z
}.

(** [ComplexityFactors()]: every field defaults to 0. *)
Definition ComplexityFactors_new : ComplexityFactors :=
  mkFactors 0 0 0 0 0 0 0 0.

(** [calculate_score]: the sum is evaluated left to right.  The first two
    products and their sum are integers; from the third term on the
    running sum is a float and every integer product is coerced. *)
Definition calculate_score (self : ComplexityFactors) : option Py.float :=
  let i12 := functional_requirements self * 2 + integration_points self * 3 in
  t3 ← Py.int_mul_float (ui_components self) Py.f1_5;
  s3 ← Py.int_add_float i12 t3;
  s4 ← Py.float_add_int s3 (database_changes self * 2);
  s5 ← Py.float_add_int s4 (external_apis self * 3);
  s6 ← Py.float_add_int s5 (authentication_features self * 4);
  t7 ← Py.int_mul_float (file_operations self) Py.f1_5;
  s7 ← Py.float_add_float s6 t7;
  s8 ← Py.float_add_int s7 (real_time_features self * 3);
  Py.float_div_int s8 5.

(** The [if]/[elif] chain of [get_category], on a score. *)
Definition category_of_score (score : Py.float) : string :=
  if Py.float_le_int score 5 then "simple"
  else if Py.float_le_int score 15 then "medium"
  else if Py.float_le_int score 30 then "complex"
  else "enterprise".

Definition get_category (self : ComplexityFactors) : option string :=
  score ← calculate_score self;
  Some (category_of_score score).

(** The dictionary [ranges] of [get_story_count_range]. *)
Definition ranges : gmap string (Z * Z) :=
  <["simple" := (3, 5)]>
  (<["medium" := (6, 12)]>
  (<["complex" := (13, 25)]>
  (<["enterprise" := (26, 50)]> ∅))).

(** [ranges.get(category, (6, 12))]. *)
Definition ranges_get (category : string) : Z * Z :=
  default (6, 12) (ranges !! category).

Definition get_story_count_range (self : ComplexityFactors) : option (Z * Z) :=
  category ← get_category self;
  Some (ranges_get category).

(** [(min_stories, int(max_stories * 1.5))]. *)
Definition iteration_estimate_of (story : Z * Z) : option (Z * Z) :=
  let '(min_stories, max_stories) := story in
  x ← Py.int_mul_float max_stories Py.f1_5;
  hi ← Py.int_of_float x;
  Some (min_stories, hi).

Definition get_iteration_estimate (self : ComplexityFactors) : option (Z * Z) :=
  story ← get_story_count_range self;
  iteration_estimate_of story.

(** ** The class [ComplexityAnalyzer] *)

(** The table [PATTERNS], in the order of the source. *)
Definition PATTERNS : list (string * list string) := [
  ("functional_requirements", [
     "(?:must|shall|should|will)\s+(?:be able to|allow|enable|support)";
     "FR-\d+";
     "requirement[s]?\s*:";
     "(?:user|system)\s+(?:can|will|should)" ]);
  ("integration_points", [
     "integrat(?:e|ion|ing)\s+with";
     "connect(?:s|ing)?\s+to";
     "(?:third[- ]party|external)\s+(?:service|system|api)";
     "webhook[s]?";
     "(?:import|export)\s+(?:from|to)" ]);
  ("ui_components", [
     "(?:button|form|modal|dialog|dropdown|menu|table|list|card|panel)";
     "(?:page|screen|view|component|widget)";
     "(?:display|show|render|present)";
     "UI/UX";
     "(?:click|tap|hover|drag|drop)" ]);
  ("database_changes", [
     "(?:database|db|schema|table|column|field|migration)";
     "(?:create|update|delete|insert)\s+(?:table|record|row)";
     "(?:sql|query|index)";
     "(?:foreign key|primary key|constraint)" ]);
  ("external_apis", [
     "(?:api|endpoint|rest|graphql|grpc)";
     "(?:http|https)\s*://";
     "(?:get|post|put|patch|delete)\s+(?:request|endpoint)";
     "(?:oauth|api[- ]key|token)" ]);
  ("authentication_features", [
     "(?:auth|login|logout|signin|signout|signup)";
     "(?:password|credential|session|jwt|token)";
     "(?:permission|role|access control|rbac)";
     "(?:mfa|2fa|two[- ]factor)" ]);
  ("file_operations", [
     "(?:upload|download|file|attachment|document)";
     "(?:storage|s3|blob|bucket)";
     "(?:image|video|audio|media)" ]);
  ("real_time_features", [
     "(?:real[- ]time|live|streaming|websocket)";
     "(?:notification|push|alert)";
     "(?:sync|synchroniz)" ])
]%string.

Record ComplexityAnalyzer : Type := mkAnalyzer {
  content : string;
  arch_content : string;
  combined_content : string
}.

Definition str_lower (s : string) : string :=
  string_of_list_ascii (Re.str_lower (list_ascii_of_string s)).

(** [__init__]: both texts are lower-cased, an absent architecture text
    is the empty string, and the two are joined by a line break. *)
Definition ComplexityAnalyzer_init (content : string)
    (arch_content : option string) : ComplexityAnalyzer :=
  let content := str_lower content in
  let arch_content := str_lower (default ""%string arch_content) in
  mkAnalyzer content arch_content
    (content ++ String Re.newline arch_content)%string.

(** [setattr(factors, factor_name, value)] on the eight fields. *)
Definition setattr (factors : ComplexityFactors) (factor_name : string)
    (value : Z) : ComplexityFactors :=
  let '(mkFactors fr ip ui db ea au fo rt) := factors in
  if String.eqb factor_name "functional_requirements"
  then mkFactors value ip ui db ea au fo rt
  else if String.eqb factor_name "integration_points"
  then mkFactors fr value ui db ea au fo rt
  else if String.eqb factor_name "ui_components"
  then mkFactors fr ip value db ea au fo rt
  else if String.eqb factor_name "database_changes"
  then mkFactors fr ip ui value ea au fo rt
  else if String.eqb factor_name "external_apis"
  then mkFactors fr ip ui db value au fo rt
  else if String.eqb factor_name "authentication_features"
  then mkFactors fr ip ui db ea value fo rt
  else if String.eqb factor_name "file_operations"
  then mkFactors fr ip ui db ea au value rt
  else if String.eqb factor_name "real_time_features"
  then mkFactors fr ip ui db ea au fo value
  else factors.

(** The inner loop of [analyze]: [count += len(re.findall(...))]. *)
Fixpoint count_loop (patterns : list string) (text : string) (count : Z) :
    option Z :=
  match patterns with
  | [] => Some count
  | pattern :: rest =>
      n ← Re.findall_len pattern text true;
      count_loop rest text (count + Z.of_nat n)
  end.

(** The outer loop: one factor after the other, capped at 20. *)
Fixpoint analyze_loop (items : list (string * list string)) (text : string)
    (factors : ComplexityFactors) : option ComplexityFactors :=
  match items with
  | [] => Some factors
  | (factor_name, patterns) :: rest =>
      count ← count_loop patterns text 0;
      analyze_loop rest text (setattr factors factor_name (Z.min count 20))
  end.

Definition analyze (self : ComplexityAnalyzer) : option ComplexityFactors :=
  analyze_loop PATTERNS (combined_content self) ComplexityFactors_new.

Definition title_patterns : list string := [
  "#\s*(?:PRD|Feature|Product Requirements):\s*(.+)";
  "#\s*(.+?)(?:\n|$)";
  "(?:feature|project):\s*(.+?)(?:\n|$)"
]%string.

(** [re.sub(r"[^a-z0-9]+", "-", title.lower()).strip("-")]. *)
Definition kebab (title : Re.str) : option string :=
  s ← Re.sub_str "[^a-z0-9]+" "-" (Re.str_lower title);
  Some (string_of_list_ascii (Re.strip_chars ["-"%char] s)).

(** The loop of [extract_feature_name]; [match.group(1)] of a group that
    took no part in the match is [None], whose [strip] would raise. *)
Fixpoint feature_name_loop (patterns : list string) (text : string) :
    option string :=
  match patterns with
  | [] => Some "feature"%string
  | pattern :: rest =>
      m ← Re.search_groups pattern text true;
      match m with
      | Some groups =>
          g ← Re.group groups 1;
          kebab (Re.strip g)
      | None => feature_name_loop rest text
      end
  end.

Definition extract_feature_name (self : ComplexityAnalyzer) : option string :=
  feature_name_loop title_patterns (content self).

Definition project_patterns : list string := [
  "project:\s*(.+?)(?:\n|$)";
  "(?:for|in)\s+(?:the\s+)?([A-Z][a-zA-Z]+(?:\s+[A-Z][a-zA-Z]+)*)\s+(?:project|app|application)"
]%string.

Fixpoint project_name_loop (patterns : list string) (text : string) :
    option string :=
  match patterns with
  | [] => Some "Project"%string
  | pattern :: rest =>
      m ← Re.search_groups pattern text true;
      match m with
      | Some groups =>
          g ← Re.group groups 1;
          Some (string_of_list_ascii (Re.strip g))
      | None => project_name_loop rest text
      end
  end.

Definition extract_project_name (self : ComplexityAnalyzer) : option string :=
  project_name_loop project_patterns (content self).

(** ** Built-in functions that the report and the record use *)

(** [str(n)] for an integer. *)
Definition str_of_int (n : Z) : string :=
  DecimalString.NilZero.string_of_int (Z.to_int n).

(** The integer nearest to [num / den], ties to the even one. *)
Definition round_half_even (num : Z) (den : positive) : Z :=
  let q := num / Zpos den in
  let r := num mod Zpos den in
  match 2 * r ?= Zpos den with
  | Lt => q
  | Gt => q + 1
  | Eq => if Z.even q then q else q + 1
  end.

(** The absolute value of a finite float times ten, rounded to an integer
    from its exact binary value, as the correctly rounded conversion to a
    decimal with one digit after the point does. *)
Definition tenths_of_float (m : positive) (e : Z) : Z :=
  match e with
  | Zneg p => round_half_even (Zpos m * 10) (2 ^ p)
  | _ => Zpos m * 2 ^ e * 10
  end.

(** The binary64 number nearest to [t / 10], for [t >= 0], with a sign. *)
Definition float_of_tenths (s : bool) (t : Z) : Py.float :=
  match t with
  | Zpos p => Py.fdiv (S754_finite s p 0) (S754_finite false 10 0)
  | _ => S754_zero s
  end.

(** [round(x, 1)]: the nearest decimal with one digit after the point,
    converted back to the nearest float.  Infinities and NaN round to
    themselves; [OverflowError] when the result is too large. *)
Definition round1 (x : Py.float) : option Py.float :=
  match x with
  | S754_finite s m e =>
      match float_of_tenths s (tenths_of_float m e) with
      | S754_infinity _ => None
      | r => Some r
      end
  | _ => Some x
  end.

(** [f"{x:.1f}"]. *)
Definition format_1f (x : Py.float) : string :=
  match x with
  | S754_zero s => ((if s then "-" else "") ++ "0.0")%string
  | S754_infinity s => ((if s then "-" else "") ++ "inf")%string
  | S754_nan => "nan"%string
  | S754_finite s m e =>
      let t := tenths_of_float m e in
      ((if s then "-" else "") ++ str_of_int (t / 10) ++ "."
       ++ str_of_int (t mod 10))%string
  end.

(** [s.upper()], [s.replace(a, b)] for single characters and [s.title()],
    on ASCII text. *)
Definition str_upper (s : string) : string :=
  string_of_list_ascii (map Re.upper (list_ascii_of_string s)).

Definition replace_char (a b : ascii) (s : Re.str) : Re.str :=
  map (fun c => if (c =? a)%char then b else c) s.

(** In [title] a letter is upper-cased unless the character before it is
    a letter, in which case it is lower-cased. *)
Fixpoint title_from (previous_is_cased : bool) (s : Re.str) : Re.str :=
  match s with
  | [] => []
  | c :: t =>
      (if previous_is_cased then Re.lower c else Re.upper c)
      :: title_from (Re.is_upper c || Re.is_lower c) t
  end.

Definition str_title (s : Re.str) : Re.str := title_from false s.

(** ** JSON-like values: what [to_dict] and [generate_prd_json] build *)

Inductive json : Type :=
| JStr (s : string)
| JInt (n : Z)
| JFloat (x : Py.float)
| JBool (b : bool)
| JList (l : list json)
| JDict (d : list (string * json)).     (* in insertion order *)

(** [d[key]] on a dictionary. *)
Fixpoint dict_get (d : list (string * json)) (key : string) : option json :=
  match d with
  | [] => None
  | (k, v) :: rest => if String.eqb k key then Some v else dict_get rest key
  end.

Definition json_get (j : json) (key : string) : option json :=
  match j with
  | JDict d => dict_get d key
  | _ => None
  end.

(** The dataclass [UserStory] and its [to_dict]. *)
Record UserStory : Type := mkStory {
  story_id : string;
  title : string;
  description : string;
  acceptance_criteria : list string;
  priority : Z;
  passes : bool;
  notes : string
}.

Definition to_dict (self : UserStory) : json :=
  JDict [
    ("id", JStr (story_id self));
    ("title", JStr (title self));
    ("description", JStr (description self));
    ("acceptanceCriteria", JList (map JStr (acceptance_criteria self)));
    ("priority", JInt (priority self));
    ("passes", JBool (passes self));
    ("notes", JStr (notes self))
  ]%string.

Definition nl : string := String Re.newline "".

(** [f"{low}-{high}"]. *)
Definition format_range (r : Z * Z) : string :=
  (str_of_int r.1 ++ "-" ++ str_of_int r.2)%string.

(** [feature_name.replace('-', ' ').title()]. *)
Definition title_of_slug (feature_name : string) : string :=
  string_of_list_ascii
    (str_title (replace_char "-" " " (list_ascii_of_string feature_name))).

(** [generate_prd_json]; [now] stands for [datetime.now().isoformat()].
    The argument [output_path] is not used, as in the source. *)
Definition generate_prd_json (content : string) (arch_content : option string)
    (output_path : string) (now : string) : option json :=
  let analyzer := ComplexityAnalyzer_init content arch_content in
  factors ← analyze analyzer;
  score ← calculate_score factors;
  category ← get_category factors;
  stories ← get_story_count_range factors;
  iterations ← get_iteration_estimate factors;
  feature_name ← extract_feature_name analyzer;
  project_name ← extract_project_name analyzer;
  rounded ← round1 score;
  Some (JDict [
    ("project", JStr project_name);
    ("branchName", JStr ("ralph/" ++ feature_name));
    ("description", JStr (title_of_slug feature_name ++ " Feature"));
    ("complexity", JDict [
       ("score", JFloat rounded);
       ("category", JStr category);
       ("estimated_stories", JStr (format_range stories));
       ("estimated_iterations", JStr (format_range iterations));
       ("factors", JDict [
          ("functional_requirements", JInt (functional_requirements factors));
          ("integration_points", JInt (integration_points factors));
          ("ui_components", JInt (ui_components factors));
          ("database_changes", JInt (database_changes factors));
          ("external_apis", JInt (external_apis factors));
          ("authentication_features", JInt (authentication_features factors));
          ("file_operations", JInt (file_operations factors));
          ("real_time_features", JInt (real_time_features factors)) ]) ]);
    ("userStories", JList []);
    ("_generated", JDict [
       ("timestamp", JStr now);
       ("note", JStr "Stories need to be populated based on PRD analysis") ])
  ]%string).

(** ["=" * 50]. *)
Definition rule : string := string_of_list_ascii (repeat "="%char 50).

(** [print_analysis]: the arguments of its calls of [print], in order.
    The four methods are called before anything is printed. *)
Definition print_analysis (factors : ComplexityFactors) : option (list string) :=
  score ← calculate_score factors;
  category ← get_category factors;
  stories ← get_story_count_range factors;
  iterations ← get_iteration_estimate factors;
  Some [
    nl ++ rule;
    "  Complexity Analysis Results";
    rule;
    nl ++ "  Complexity Score: " ++ format_1f score;
    "  Category: " ++ str_upper category;
    "  Recommended Stories: " ++ format_range stories;
    "  Estimated Iterations: " ++ format_range iterations;
    nl ++ "  Factor Breakdown:";
    "    Functional Requirements: " ++ str_of_int (functional_requirements factors);
    "    Integration Points: " ++ str_of_int (integration_points factors);
    "    UI Components: " ++ str_of_int (ui_components factors);
    "    Database Changes: " ++ str_of_int (database_changes factors);
    "    External APIs: " ++ str_of_int (external_apis factors);
    "    Authentication: " ++ str_of_int (authentication_features factors);
    "    File Operations: " ++ str_of_int (file_operations factors);
    "    Real-time Features: " ++ str_of_int (real_time_features factors);
    nl ++ rule
  ]%string.

(** ** [main], over a file system given by its operations *)

(** What [parser.parse_args()] returns. *)
Record Args : Type := mkArgs {
  prd_file : string;
  arch_file : option string;
  output : string;
  analyze_only : bool
}.

(** [parser.parse_args()] returns the arguments, or leaves the program
    through [SystemExit]: with status 2 on a usage error, with status 0
    after printing the help text for [--help]; [printed] is what it wrote
    to the standard output. *)
Inductive parsed : Type :=
| Parsed (args : Args)
| ParserExit (printed : list string) (code : Z).

(** How a run ends: [main] returns, [sys.exit(code)], or an exception. *)
Inductive outcome : Type := Returned | Exit (code : Z) | Raised.

Section Main.
(** The state of the file system, and the operations of [argparse] and
    [pathlib] on it; [None] is an exception ([OSError],
    [UnicodeDecodeError], ...). *)
Variable fs : Type.
Variable parse_args : list string -> parsed.       (* on sys.argv[1:] *)
Variable path_str : string -> string.                   (* str(Path(p)) *)
Variable path_exists : fs -> string -> bool.            (* Path(p).exists() *)
Variable read_text : fs -> string -> option string.     (* Path(p).read_text() *)
(** [Path(p).write_text(text)]: the file system that the call leaves, and
    whether it returned ([true]) or raised ([false]).  A call that raises
    may have created or emptied the file before. *)
Variable write_text : fs -> string -> string -> fs * bool.
Variable json_dumps : json -> string.           (* json.dumps(prd, indent=2) *)
Variable now : string.                   (* datetime.now().isoformat() *)

(** The file system after the run, what was printed to the standard
    output, and the outcome. *)
Definition run : Type := fs * list string * outcome.

(** [if args.arch_file:] holds for a path that is given and not empty. *)
Definition given (p : option string) : option string :=
  match p with
  | Some a => if String.eqb a "" then None else Some a
  | None => None
  end.

(** The second half of [main], from [# Analyze] on. *)
Definition main_analyze (args : Args) (w : fs) (out : list string)
    (content : string) (arch_content : option string) : run :=
  match analyze (ComplexityAnalyzer_init content arch_content) with
  | None => (w, out, Raised)
  | Some factors =>
      match print_analysis factors with
      | None => (w, out, Raised)
      | Some report =>
          let out := out ++ report in
          if analyze_only args then (w, out, Returned)
          else
            match generate_prd_json content arch_content (output args) now with
            | None => (w, out, Raised)
            | Some prd =>
                let '(w', ok) := write_text w (output args) (json_dumps prd) in
                if ok then
                  (w',
                   out ++ [nl ++ "  Generated: " ++ path_str (output args);
                           "  Note: User stories need to be populated manually or via /autonomous-agent-loop convert"]%string,
                   Returned)
                else (w', out, Raised)
            end
      end
  end.

(** [main], run on the command line arguments [argv]. *)
Definition main (argv : list string) (w : fs) : run :=
  match parse_args argv with
  | ParserExit printed code => (w, printed, Exit code)
  | Parsed args =>
      if negb (path_exists w (prd_file args)) then
        (w, ["Error: PRD file not found: " ++ path_str (prd_file args)]%string,
         Exit 1)
      else
        match read_text w (prd_file args) with
        | None => (w, [], Raised)
        | Some content =>
            match given (arch_file args) with
            | None => main_analyze args w [] content None
            | Some a =>
                if path_exists w a then
                  match read_text w a with
                  | None => (w, [], Raised)
                  | Some arch_content =>
                      main_analyze args w [] content (Some arch_content)
                  end
                else
                  main_analyze args w
                    ["Warning: Architecture file not found: " ++ path_str a]%string
                    content None
            end
        end
  end.
End Main.

(** ** The specification's reading of the scorer, in exact arithmetic *)

(** The weighted sum of the eight counts divided by 5, as the
    specification words it. *)
Definition spec_score (f : ComplexityFactors) : Q :=
  ((2 * inject_Z (functional_requirements f)
    + 3 * inject_Z (integration_points f)
    + (3 # 2) * inject_Z (ui_components f)
    + 2 * inject_Z (database_changes f)
    + 3 * inject_Z (external_apis f)
    + 4 * inject_Z (authentication_features f)
    + (3 # 2) * inject_Z (file_operations f)
    + 3 * inject_Z (real_time_features f)) / 5)%Q.

(** The records of the data model: every counter in [0, 20]. *)
Definition in_range (f : ComplexityFactors) : Prop :=
  0 <= functional_requirements f <= 20 /\
  0 <= integration_points f <= 20 /\
  0 <= ui_components f <= 20 /\
  0 <= database_changes f <= 20 /\
  0 <= external_apis f <= 20 /\
  0 <= authentication_features f <= 20 /\
  0 <= file_operations f <= 20 /\
  0 <= real_time_features f <= 20.

(** The bands of the specification, on a score compared as Python
    compares floats... *)
Definition bands_float (c : string) (s : Py.float) : Prop :=
  (c = "simple" <->
     Py.int_le_float 0 s = true /\ Py.float_le_int s 5 = true) /\
  (c = "medium" <->
     Py.int_lt_float 5 s = true /\ Py.float_le_int s 15 = true) /\
  (c = "complex" <->
     Py.int_lt_float 15 s = true /\ Py.float_le_int s 30 = true) /\
  (c = "enterprise" <-> Py.int_lt_float 30 s = true).

(** ... and on an exact score. *)
Definition bands_exact (c : string) (q : Q) : Prop :=
  (c = "simple" <-> (0 <= q /\ q <= 5)%Q) /\
  (c = "medium" <-> (5 < q /\ q <= 15)%Q) /\
  (c = "complex" <-> (15 < q /\ q <= 30)%Q) /\
  (c = "enterprise" <-> (30 < q)%Q).

Definition four_categories (c : string) : Prop :=
  c = "simple" \/ c = "medium" \/ c = "complex" \/ c = "enterprise".

(** [floor(hi * 1.5)], as the specification words the high bound. *)
Definition spec_iteration_high (hi : Z) : Z := Qfloor (inject_Z hi * (3 # 2)).

(** The eight counters, by name. *)
Inductive factor : Type :=
| Functional_requirements | Integration_points | Ui_components
| Database_changes | External_apis | Authentication_features
| File_operations | Real_time_features.

Definition count (k : factor) (f : ComplexityFactors) : Z :=
  match k with
  | Functional_requirements => functional_requirements f
  | Integration_points => integration_points f
  | Ui_components => ui_components f
  | Database_changes => database_changes f
  | External_apis => external_apis f
  | Authentication_features => authentication_features f
  | File_operations => file_operations f
  | Real_time_features => real_time_features f
  end.

Definition all_twenty : ComplexityFactors :=
  mkFactors 20 20 20 20 20 20 20 20.

(** ** The specification's reading of the analyzer *)

(** The sum, over the patterns of one factor, of the number of matches in
    the text. *)
Definition raw_count (patterns : list string) (text : string) : Z :=
  foldr Z.add 0
    (map (fun p => Z.of_nat (default O (Re.findall_len p text true))) patterns).

(** [getattr(factors, factor_name)] on the eight fields. *)
Definition getattr (factors : ComplexityFactors) (factor_name : string) :
    option Z :=
  if String.eqb factor_name "functional_requirements"
  then Some (functional_requirements factors)
  else if String.eqb factor_name "integration_points"
  then Some (integration_points factors)
  else if String.eqb factor_name "ui_components"
  then Some (ui_components factors)
  else if String.eqb factor_name "database_changes"
  then Some (database_changes factors)
  else if String.eqb factor_name "external_apis"
  then Some (external_apis factors)
  else if String.eqb factor_name "authentication_features"
  then Some (authentication_features factors)
  else if String.eqb factor_name "file_operations"
  then Some (file_operations factors)
  else if String.eqb factor_name "real_time_features"
  then Some (real_time_features factors)
  else None.

(** Slugs: the text lower-cased, every run of characters that are not
    alphanumeric (neither a letter a-z, A-Z nor a digit) replaced by one
    ["-"], and the ["-"] at both ends removed. *)
Fixpoint collapse_runs (in_run : bool) (s : Re.str) : Re.str :=
  match s with
  | [] => []
  | c :: t =>
      if Re.is_alnum c then c :: collapse_runs false t
      else if in_run then collapse_runs true t
      else "-"%char :: collapse_runs true t
  end.

Definition spec_slugify (title : Re.str) : string :=
  string_of_list_ascii
    (Re.strip_chars ["-"%char] (collapse_runs false (Re.str_lower title))).

(** The text of group 1 in the leftmost match of a pattern, case
    ignored. *)
Definition first_group (pattern text : string) : option Re.str :=
  match Re.compile pattern with
  | Some r =>
      match Re.search r true (list_ascii_of_string text) with
      | Some (_, groups) => Re.group groups 1
      | None => None
      end
  | None => None
  end.

(** The three title patterns in their order of priority: a labelled
    heading, the first heading, an inline label; else the fallback. *)
Definition spec_feature_name (text : string) : string :=
  match first_group "#\s*(?:PRD|Feature|Product Requirements):\s*(.+)" text with
  | Some g => spec_slugify (Re.strip g)
  | None =>
      match first_group "#\s*(.+?)(?:\n|$)" text with
      | Some g => spec_slugify (Re.strip g)
      | None =>
          match first_group "(?:feature|project):\s*(.+?)(?:\n|$)" text with
          | Some g => spec_slugify (Re.strip g)
          | None => "feature"%string
          end
      end
  end.

(** The project-name loop, as a case analysis on the two patterns. *)
Definition project_name_cases (text : string) : string :=
  match first_group "project:\s*(.+?)(?:\n|$)" text with
  | Some g => string_of_list_ascii (Re.strip g)
  | None =>
      match first_group
              "(?:for|in)\s+(?:the\s+)?([A-Z][a-zA-Z]+(?:\s+[A-Z][a-zA-Z]+)*)\s+(?:project|app|application)"
              text with
      | Some g => string_of_list_ascii (Re.strip g)
      | None => "Project"%string
      end
  end.

(** ** Definitions that the proofs use *)

(** Twice the weighted sum: an integer, ten times the exact score. *)
Definition tenths (f : ComplexityFactors) : Z :=
  4 * functional_requirements f + 6 * integration_points f
  + 3 * ui_components f + 4 * database_changes f
  + 6 * external_apis f + 8 * authentication_features f
  + 3 * file_operations f + 6 * real_time_features f.

(** The integers [0 .. n-1], for the exhaustive checks. *)
Definition upto (n : nat) : list Z := map Z.of_nat (seq 0 n).

(** Decidable equality of floats, for the exhaustive checks. *)
Definition float_eqb (x y : Py.float) : bool :=
  match x, y with
  | S754_zero s, S754_zero t => Bool.eqb s t
  | S754_infinity s, S754_infinity t => Bool.eqb s t
  | S754_nan, S754_nan => true
  | S754_finite s m e, S754_finite t n f =>
      Bool.eqb s t && Pos.eqb m n && Z.eqb e f
  | _, _ => false
  end.

(** The float [h / 2]. *)
Definition halves (h : Z) : Py.float := Py.scaled h (-1).

Definition option_float_eqb (o : option Py.float) (y : Py.float) : bool :=
  match o with Some x => float_eqb x y | None => false end.

(** The score of a record of the data model, as a function of its exact
    tenths. *)
Definition score_of_tenths (h : Z) : Py.float := Py.fdiv (halves h) (halves 10).

(** The category, read off the exact tenths. *)
Definition band_of_tenths (h : Z) : string :=
  if h <=? 50 then "simple"
  else if h <=? 150 then "medium"
  else if h <=? 300 then "complex"
  else "enterprise".

(** The rounding error of the one division: the computed score is the
    exact one up to a relative error of [2^-53]. *)
Definition close_to (x : Py.float) (q : Q) : bool :=
  match Py.Q_of_float x with
  | Some v => Qle_bool (Qabs (v - q) * (2 ^ 53)) q
  | None => false
  end.

(** A sufficient condition for every match of [r] to bind group [n]: the
    group lies on each path through [r], outside any loop. *)
Fixpoint binds (n : nat) (r : Re.regex) : bool :=
  match r with
  | Re.Cat a b => binds n a || binds n b
  | Re.Alt a b => binds n a && binds n b
  | Re.Grp m a => (m =? n)%nat || binds n a
  | _ => false
  end.

(** Group [n] took part in the match. *)
Definition bound (n : nat) (cs : Re.caps) : Prop := is_Some (Re.group cs n).

(** A continuation that keeps group [n] bound, and one that binds it. *)
Definition keeps (n : nat) (k : Re.cont) : Prop :=
  forall s cs res, bound n cs -> k s cs = Some res -> bound n res.2.
Definition always (n : nat) (k : Re.cont) : Prop :=
  forall s cs res, k s cs = Some res -> bound n res.2.

(** The continuation that a loop with [fuel] left hands to its body. *)
Definition again (body : Re.str -> Re.caps -> Re.cont -> option Re.result)
    (greedy : bool) (k : Re.cont) (fuel : nat) (s : Re.str) : Re.cont :=
  fun s' cs' =>
    if (length s' <? length s)%nat
    then Re.star_loop body greedy k fuel s' cs' else None.

(** A pattern that compiles and binds its group 1 in every match. *)
Definition well_formed (pattern : string) : bool :=
  match Re.compile pattern with
  | Some r => binds 1 r
  | None => false
  end.

(** [re.compile] accepts the pattern. *)
Definition compiles (pattern : string) : bool :=
  match Re.compile pattern with Some _ => true | None => false end.

Definition all_compile (items : list (string * list string)) : bool :=
  forallb (fun it => forallb compiles it.2) items.

(** The value that [analyze] records for the patterns of one factor. *)
Definition capped (text : string) (patterns : list string) : Z :=
  Z.min (raw_count patterns text) 20.

(** The pattern [[^a-z0-9]+] of the slug, compiled, and its set. *)
Definition slug_items : list Re.item := [Re.Range "a" "z"; Re.Range "0" "9"].
Definition slug_re : Re.regex :=
  Re.plus true (Re.Set_ true slug_items).
Definition not_slug (c : ascii) : bool := Re.set_match false true slug_items c.

(** Text without any capital letter A-Z. *)
Definition lowered (s : Re.str) : Prop :=
  Forall (fun c => Re.is_upper c = false) s.

(** ** Further definitions: what matches are made of, shapes of names *)

(** Every character of the text and of the captured groups satisfies [P]. *)
Definition caps_forall (P : ascii -> Prop) (cs : Re.caps) : Prop :=
  Forall (fun nt => Forall P nt.2) cs.

(** A matcher hands to its continuation a suffix of its text, and groups
    cut out of that text: when [P] holds of every character of the text
    going in, it holds of the text coming out, and [Q], which [P]
    implies, holds of the groups if it did before. *)
Definition carries (P Q : ascii -> Prop)
    (m : Re.str -> Re.caps -> Re.cont -> option Re.result) : Prop :=
  forall k s cs res,
    Forall P s -> caps_forall Q cs -> m s cs k = Some res ->
    exists s' cs', Forall P s' /\ caps_forall Q cs' /\ k s' cs' = Some res.

(** The 256 characters. *)
Definition all_ascii : list ascii := map ascii_of_nat (seq 0 256).

(** A sufficient condition for every match of [r] to consume a character
    that satisfies [P]. *)
Fixpoint requires (P : ascii -> bool) (ic : bool) (r : Re.regex) : bool :=
  match r with
  | Re.Chr c =>
      forallb (fun x => implb (Re.chr_match ic c x) (P x)) all_ascii
  | Re.Dot =>
      forallb (fun x => implb (negb (x =? Re.newline)%char) (P x)) all_ascii
  | Re.Set_ neg its =>
      forallb (fun x => implb (Re.set_match ic neg its x) (P x)) all_ascii
  | Re.Cat a b => requires P ic a || requires P ic b
  | Re.Alt a b => requires P ic a && requires P ic b
  | Re.Grp _ a => requires P ic a
  | _ => false
  end.

(** The pattern compiles and every match of it, case ignored, consumes a
    character that satisfies [P]. *)
Definition pattern_requires (P : ascii -> bool) (pattern : string) : bool :=
  match Re.compile pattern with
  | Some r => requires P true r
  | None => false
  end.

(** No character of the text satisfies [P]. *)
Definition free_of (P : ascii -> bool) (s : Re.str) : Prop :=
  Forall (fun x => P x = false) s.

Definition is_letter (c : ascii) : bool := Re.is_upper c || Re.is_lower c.

(** Neither the first nor the last character satisfies [p]. *)
Definition trimmed (p : ascii -> bool) (s : Re.str) : Prop :=
  (forall x t, s = x :: t -> p x = false) /\
  (forall x t, s = t ++ [x] -> p x = false).

(** The characters of a slug: a-z, 0-9 and the separator. *)
Definition slug_char (c : ascii) : bool :=
  Re.is_lower c || Re.is_digit c || (c =? "-")%char.

Definition is_dash (c : ascii) : bool := (c =? "-")%char.

(** A well-shaped slug: slug characters only, no separator at either end
    and no two separators in a row.  The empty text is one. *)
Definition slug_shape (s : Re.str) : Prop :=
  Forall (fun c => slug_char c = true) s /\
  trimmed is_dash s /\
  forall a b, s <> a ++ "-"%char :: "-"%char :: b.

(** A heading mark or a colon. *)
Definition hash_or_colon (c : ascii) : bool :=
  (c =? "#")%char || (c =? ":")%char.

(** The four categories, in their order. *)
Definition category_rank (c : string) : nat :=
  if String.eqb c "simple" then 0
  else if String.eqb c "medium" then 1
  else if String.eqb c "complex" then 2
  else 3.

(** A file system of named texts, the newest first, on which [main] can
    be run: a path exists when a text is stored under it, reading gives
    the newest text, writing always succeeds. *)
Definition files : Type := list (string * string).

Fixpoint files_read (w : files) (p : string) : option string :=
  match w with
  | [] => None
  | (q, text) :: rest => if String.eqb q p then Some text else files_read rest p
  end.

Definition files_exists (w : files) (p : string) : bool :=
  match files_read w p with Some _ => true | None => false end.

Definition files_write (w : files) (p text : string) : files * bool :=
  ((p, text) :: w, true).

(** A parser of positional arguments only: the PRD file and, optionally,
    the architecture file; anything else is a usage error. *)
Definition positional (analyze_only : bool) (argv : list string) : parsed :=
  match argv with
  | [p] => Parsed (mkArgs p None "prd.json" analyze_only)
  | [p; a] => Parsed (mkArgs p (Some a) "prd.json" analyze_only)
  | _ => ParserExit [] 2
  end.

(** A serialisation that only names the kind of value. *)
Definition kind_of (j : json) : string :=
  match j with
  | JStr _ => "string" | JInt _ => "int" | JFloat _ => "float"
  | JBool _ => "bool" | JList _ => "list" | JDict _ => "dict"
  end.

(** [g] is a piece of [s]: some consecutive characters of it. *)
Definition piece_of (s g : Re.str) : Prop := exists a b, s = a ++ g ++ b.

(** [s] is an end of [whole]. *)
Definition end_of (whole s : Re.str) : Prop := exists a, whole = a ++ s.

(** A matcher hands to its continuation an end of its text, and every
    group is a piece of the whole text if the groups before were. *)
Definition cuts (whole : Re.str)
    (m : Re.str -> Re.caps -> Re.cont -> option Re.result) : Prop :=
  forall k s cs res,
    end_of whole s -> Forall (fun nt => piece_of whole nt.2) cs ->
    m s cs k = Some res ->
    exists s' cs',
      end_of s s' /\ Forall (fun nt => piece_of whole nt.2) cs' /\
      k s' cs' = Some res.

(** A text of Python as its code points.  The strings of this
    development are the texts whose code points are all below 256. *)
Definition code_points : Type := list N.

Definition latin1 (t : code_points) : Prop := Forall (fun c => (c < 256)%N) t.

Definition of_code_points (t : code_points) : string :=
  string_of_list_ascii (map ascii_of_N t).

(** The code points of A-Z and a-z. *)
Definition letter_code (c : N) : bool :=
  ((65 <=? c) && (c <=? 90) || (97 <=? c) && (c <=? 122))%N.

(** ** Feature names, read off the text without regular expressions

    What the three title patterns and the slug amount to, written as
    functions on the characters of the text.  Nothing here uses the
    matcher or the string functions of [Re]. *)

Definition code_in (lo hi : N) (c : ascii) : bool :=
  ((lo <=? N_of_ascii c) && (N_of_ascii c <=? hi))%N.

(** White space, the line break, the heading mark, the separator. *)
Definition is_blank (c : ascii) : bool :=
  code_in 9 13 c || code_in 28 32 c || code_in 133 133 c || code_in 160 160 c.
Definition is_break (c : ascii) : bool := code_in 10 10 c.
Definition is_hash (c : ascii) : bool := code_in 35 35 c.
Definition is_hyphen (c : ascii) : bool := code_in 45 45 c.

(** A letter a-z or a digit. *)
Definition is_small (c : ascii) : bool := code_in 97 122 c || code_in 48 57 c.

(** The lower case of a character: A-Z and the capitals of Latin-1. *)
Definition small (c : ascii) : ascii :=
  if code_in 65 90 c || code_in 192 214 c || code_in 216 222 c
  then ascii_of_N (N_of_ascii c + 32) else c.

(** Every run of characters that are neither a-z nor 0-9 becomes one
    hyphen. *)
Fixpoint hyphenate (in_run : bool) (s : list ascii) : list ascii :=
  match s with
  | [] => []
  | c :: t =>
      if is_small c then c :: hyphenate false t
      else if in_run then hyphenate true t
      else "-"%char :: hyphenate true t
  end.

(** Removing the characters that satisfy [p] from both ends. *)
Fixpoint skip (p : ascii -> bool) (s : list ascii) : list ascii :=
  match s with
  | c :: t => if p c then skip p t else s
  | [] => []
  end.

Fixpoint drop_end (p : ascii -> bool) (s : list ascii) : list ascii :=
  match s with
  | [] => []
  | c :: t =>
      match drop_end p t with
      | [] => if p c then [] else [c]
      | t' => c :: t'
      end
  end.

Definition trim (p : ascii -> bool) (s : list ascii) : list ascii :=
  drop_end p (skip p s).

(** The slug of a title: lower-cased, runs of other characters replaced
    by one hyphen, no hyphen at either end. *)
Definition slug (title : list ascii) : list ascii :=
  trim is_hyphen (hyphenate false (map small title)).

(** The characters up to the next line break, or to the end. *)
Fixpoint line (s : list ascii) : list ascii :=
  match s with
  | [] => []
  | c :: t => if is_break c then [] else c :: line t
  end.

(** The title that follows a heading mark or a label: white space is
    passed over, line breaks included, and the title is the rest of the
    line from the first character that is not white space.  When only
    white space follows, to the end of the text, the title is the last
    character of it that is not a line break; there is none when nothing
    or only line breaks follow. *)
Fixpoint title_after (s : list ascii) : option (list ascii) :=
  match s with
  | [] => None
  | c :: t =>
      if is_blank c then
        match title_after t with
        | Some title => Some title
        | None => if is_break c then None else Some [c]
        end
      else Some (line s)
  end.

(** The text [s] without [p] in front of it. *)
Fixpoint after_prefix (p s : list ascii) : option (list ascii) :=
  match p, s with
  | [], _ => Some s
  | a :: p', c :: s' => if (a =? c)%char then after_prefix p' s' else None
  | _ :: _, [] => None
  end.

(** The text after the first of the labels that it starts with. *)
Fixpoint after_label (labels : list string) (s : list ascii) :
    option (list ascii) :=
  match labels with
  | [] => None
  | l :: rest =>
      match after_prefix (list_ascii_of_string l) s with
      | Some r => Some r
      | None => after_label rest s
      end
  end.

(** The first place of the text, from the left, where [f] finds
    something. *)
Fixpoint leftmost {A : Type} (f : list ascii -> option A) (s : list ascii) :
    option A :=
  match f s with
  | Some a => Some a
  | None =>
      match s with
      | [] => None
      | _ :: t => leftmost f t
      end
  end.

Definition heading_labels : list string :=
  ["prd:"; "feature:"; "product requirements:"]%string.
Definition inline_labels : list string := ["feature:"; "project:"]%string.

(** A labelled heading: a heading mark, white space if any, one of the
    labels, and a title. *)
Definition labelled_heading_at (s : list ascii) : option (list ascii) :=
  match s with
  | c :: rest =>
      if is_hash c then
        match after_label heading_labels (skip is_blank rest) with
        | Some r => title_after r
        | None => None
        end
      else None
  | [] => None
  end.

(** A heading: a heading mark, wherever it stands in its line, and a
    title. *)
Definition heading_at (s : list ascii) : option (list ascii) :=
  match s with
  | c :: rest => if is_hash c then title_after rest else None
  | [] => None
  end.

(** An inline label and a title. *)
Definition inline_label_at (s : list ascii) : option (list ascii) :=
  match after_label inline_labels s with
  | Some r => title_after r
  | None => None
  end.

(** The title of a lower-cased text: that of the leftmost labelled
    heading; without any, of the leftmost heading; without any, of the
    leftmost inline label. *)
Definition feature_title (text : list ascii) : option (list ascii) :=
  match leftmost labelled_heading_at text with
  | Some title => Some title
  | None =>
      match leftmost heading_at text with
      | Some title => Some title
      | None => leftmost inline_label_at text
      end
  end.

(** The feature name of a PRD: the slug of its title without the white
    space around it, or "feature". *)
Definition feature_name_of (prd : string) : string :=
  match feature_title (map small (list_ascii_of_string prd)) with
  | Some title => string_of_list_ascii (slug (trim is_blank title))
  | None => "feature"%string
  end.

(** ** Definitions for the proofs about titles *)

(** A loop over white space that tries the longest run first. *)
Fixpoint longest_first {A : Type} (K : Re.str -> option A) (s : Re.str) :
    option A :=
  match s with
  | c :: t =>
      if Re.is_space c then
        match longest_first K t with
        | Some a => Some a
        | None => K s
        end
      else K s
  | [] => K []
  end.

(** Text that lower-casing leaves as it is. *)
Definition in_lower_case (s : Re.str) : Prop :=
  Forall (fun c => Re.lower c = c) s.

(** A word as a pattern: its characters one after the other. *)
Fixpoint word (c : ascii) (w : list ascii) : Re.regex :=
  match w with
  | [] => Re.Chr c
  | d :: w' => Re.Cat (Re.Chr c) (word d w')
  end.

(** Two words differ at a place that both have. *)
Fixpoint clash (v w : list ascii) : bool :=
  match v, w with
  | a :: v', b :: w' => negb (a =? b)%char || clash v' w'
  | _, _ => false
  end.

(** The groups of a match. *)
Definition caps_of (o : option Re.result) : option Re.caps :=
  match o with Some r => Some r.2 | None => None end.

(** The text from the next line break on. *)
Fixpoint past_line (s : Re.str) : Re.str :=
  match s with
  | [] => []
  | c :: t => if is_break c then s else past_line t
  end.

(** The continuation at the end of a pattern. *)
Definition finish : Re.cont := fun s cs => Some (s, cs).

(** The pattern parts of the titles. *)
Definition white_space : Re.regex := Re.Star true (Re.Set_ false [Re.Space]).
Definition rest_of_line : Re.regex :=
  Re.Grp 1 (Re.Cat Re.Dot (Re.Star true Re.Dot)).
Definition up_to_break : Re.regex :=
  Re.Cat (Re.Grp 1 (Re.Cat Re.Dot (Re.Star false Re.Dot)))
    (Re.Alt (Re.Chr Re.newline) Re.Eos).

(** The three title patterns, compiled. *)
Definition labelled_heading_re : Re.regex :=
  Re.Cat (Re.Chr "#")
    (Re.Cat white_space
       (Re.Cat
          (Re.Alt (word "P" (list_ascii_of_string "RD"))
             (Re.Alt (word "F" (list_ascii_of_string "eature"))
                (word "P" (list_ascii_of_string "roduct Requirements"))))
          (Re.Cat (Re.Chr ":") (Re.Cat white_space rest_of_line)))).

Definition heading_re : Re.regex :=
  Re.Cat (Re.Chr "#") (Re.Cat white_space up_to_break).

Definition inline_label_re : Re.regex :=
  Re.Cat
    (Re.Alt (word "f" (list_ascii_of_string "eature"))
       (word "p" (list_ascii_of_string "roject")))
    (Re.Cat (Re.Chr ":") (Re.Cat white_space up_to_break)).

(** * Proofs *)

(** ** Checking a decidable property on an initial segment of [Z] *)

Lemma In_upto (n : nat) (z : Z) : 0 <= z < Z.of_nat n -> In z (upto n).
Proof.
  intros Hz. unfold upto. apply in_map_iff.
  exists (Z.to_nat z). split; [lia|]. apply in_seq. lia.
Qed.

Lemma check_upto (P : Z -> bool) (n : nat) :
  forallb P (upto n) = true ->
  forall z, 0 <= z < Z.of_nat n -> P z = true.
Proof.
  intros Hall z Hz. rewrite forallb_forall in Hall.
  apply Hall, In_upto, Hz.
Qed.

Lemma check_upto2 (P : Z -> Z -> bool) (n m : nat) :
  forallb (fun a => forallb (P a) (upto m)) (upto n) = true ->
  forall a b, 0 <= a < Z.of_nat n -> 0 <= b < Z.of_nat m -> P a b = true.
Proof.
  intros Hall a b Ha Hb.
  apply (check_upto (P a) m); [|exact Hb].
  apply (check_upto (fun a => forallb (P a) (upto m)) n Hall a Ha).
Qed.

Lemma float_eqb_eq (x y : Py.float) : float_eqb x y = true -> x = y.
Proof.
  destruct x as [s|s| |s m e], y as [t|t| |t n f]; simpl;
    try discriminate; try reflexivity.
  - intros H. apply Bool.eqb_prop in H. congruence.
  - intros H. apply Bool.eqb_prop in H. congruence.
  - intros H. apply andb_prop in H as [H He]. apply andb_prop in H as [Hs Hm].
    apply Bool.eqb_prop in Hs. apply Pos.eqb_eq in Hm. apply Z.eqb_eq in He.
    congruence.
Qed.

(** ** Binary64 arithmetic on the half-integers the scorer meets

    Every intermediate value of [calculate_score] on a record of the data
    model is a multiple of one half between 0 and 400; on those, the
    conversions, products and sums are exact. *)

Lemma float_of_int_small (n : Z) :
  0 <= n <= 100 -> Py.float_of_int n = Some (halves (2 * n)).
Proof.
  intros Hn.
  assert (H : option_float_eqb (Py.float_of_int n) (halves (2 * n)) = true).
  { apply (check_upto
             (fun n => option_float_eqb (Py.float_of_int n) (halves (2 * n)))
             101); [vm_compute; reflexivity | lia]. }
  destruct (Py.float_of_int n) as [x|]; [|discriminate].
  apply float_eqb_eq in H. congruence.
Qed.

Lemma fmul_1_5_small (n : Z) :
  0 <= n <= 50 -> Py.fmul (halves (2 * n)) Py.f1_5 = halves (3 * n).
Proof.
  intros Hn. apply float_eqb_eq.
  apply (check_upto
           (fun n => float_eqb (Py.fmul (halves (2 * n)) Py.f1_5) (halves (3 * n)))
           51); [vm_compute; reflexivity | lia].
Qed.

Lemma fadd_halves (a b : Z) :
  0 <= a <= 700 -> 0 <= b <= 160 ->
  Py.fadd (halves a) (halves b) = halves (a + b).
Proof.
  intros Ha Hb. apply float_eqb_eq.
  apply (check_upto2
           (fun a b => float_eqb (Py.fadd (halves a) (halves b)) (halves (a + b)))
           701 161); [vm_cast_no_check (eq_refl true) | lia | lia].
Qed.

(** On the data model no coercion overflows and no sum is rounded: the
    score is the single, correctly rounded division of the exact weighted
    sum by 5. *)
Lemma float_div_int_5 (x : Py.float) :
  Py.float_div_int x 5 = Some (Py.fdiv x (halves 10)).
Proof. reflexivity. Qed.

Lemma calculate_score_in_range (f : ComplexityFactors) :
  in_range f ->
  calculate_score f = Some (Py.fdiv (halves (tenths f)) (halves 10)).
Proof.
  intros (H1 & H2 & H3 & H4 & H5 & H6 & H7 & H8).
  destruct f as [fr ip ui db ea au fo rt].
  unfold calculate_score, tenths.
  cbn [functional_requirements integration_points ui_components
       database_changes external_apis authentication_features
       file_operations real_time_features] in *.
  unfold Py.int_mul_float, Py.int_add_float, Py.float_add_int,
    Py.float_add_float.
  repeat (rewrite ?float_of_int_small, ?fmul_1_5_small, ?fadd_halves by lia;
          cbn [mbind option_bind]).
  rewrite float_div_int_5.
  do 3 f_equal. lia.
Qed.

(** The exact score is [tenths f / 10]. *)
Lemma spec_score_tenths (f : ComplexityFactors) :
  (spec_score f == tenths f # 10)%Q.
Proof.
  unfold spec_score, tenths. rewrite (Qmake_Qdiv _ 10).
  rewrite !inject_Z_plus, !inject_Z_mult. field.
Qed.

Lemma tenths_bounds (f : ComplexityFactors) :
  in_range f -> 0 <= tenths f <= 800.
Proof. unfold in_range, tenths. lia. Qed.

Lemma round_Q_tenths (h : Z) :
  0 <= h <= 800 -> Py.fdiv (halves h) (halves 10) = Py.round_Q (h # 10).
Proof.
  intros Hh. apply float_eqb_eq.
  apply (check_upto
           (fun h => float_eqb (Py.fdiv (halves h) (halves 10))
                               (Py.round_Q (h # 10)))
           801); [vm_cast_no_check (eq_refl true) | lia].
Qed.

Lemma close_to_tenths (h : Z) :
  0 <= h <= 800 -> close_to (Py.fdiv (halves h) (halves 10)) (h # 10) = true.
Proof.
  intros Hh.
  apply (check_upto
           (fun h => close_to (Py.fdiv (halves h) (halves 10)) (h # 10))
           801); [vm_cast_no_check (eq_refl true) | lia].
Qed.

(** ** The order of floats *)

Lemma SFcompare_antisym (x y : spec_float) :
  SFcompare y x = option_map CompOpp (SFcompare x y).
Proof.
  destruct x as [s|s| |s m e], y as [t|t| |t n f]; simpl;
    try reflexivity;
    try (destruct s; reflexivity); try (destruct t; reflexivity);
    try (destruct s, t; reflexivity).
  destruct s, t; try reflexivity.
  - rewrite (Z.compare_antisym f e).
    destruct (f ?= e) eqn:Hfe; simpl; try reflexivity.
    rewrite CompOpp_involutive. f_equal.
    exact (Pos.compare_cont_antisym n m Eq).
  - rewrite (Z.compare_antisym f e).
    destruct (f ?= e) eqn:Hfe; simpl; try reflexivity.
    f_equal. symmetry. exact (Pos.compare_cont_antisym m n Eq).
Qed.

(** Unless one of them is a NaN, [x <= y] fails exactly when [y < x]. *)
Lemma fle_false_flt (x y : Py.float) :
  x <> S754_nan -> y <> S754_nan ->
  Py.fle x y = false <-> Py.flt y x = true.
Proof.
  intros Hx Hy. unfold Py.fle, Py.flt, SFleb, SFltb.
  rewrite (SFcompare_antisym x y).
  destruct (SFcompare x y) as [[| |]|] eqn:Hc; simpl;
    try (split; congruence).
  destruct x, y; simpl in Hc; congruence.
Qed.

Lemma fle_not_nan (x y : Py.float) : Py.fle x y = true -> y <> S754_nan.
Proof.
  unfold Py.fle, SFleb. intros H ->.
  destruct x; simpl in H; discriminate.
Qed.

Lemma fle_trans (x y z : Py.float) :
  Py.fle x y = true -> Py.fle y z = true -> Py.fle x z = true.
Proof.
  unfold Py.fle, SFleb.
  destruct x as [s|s| |s m e], y as [t|t| |t n f], z as [u|u| |u p g];
    simpl; try discriminate; try reflexivity;
    try (destruct s; simpl; try discriminate; try reflexivity);
    try (destruct t; simpl; try discriminate; try reflexivity);
    try (destruct u; simpl; try discriminate; try reflexivity).
  all: change (PosDef.Pos.compare_cont Eq ?a ?b) with (Pos.compare a b).
  all: destruct (Z.compare_spec e f), (Z.compare_spec f g), (Z.compare_spec e g);
    try lia; simpl; try discriminate; try reflexivity.
  all: destruct (Pos.compare_spec m n), (Pos.compare_spec n p), (Pos.compare_spec m p);
    try lia; simpl; try discriminate; try reflexivity.
Qed.

(** ** The four bands *)

Lemma float_le_int_false (s : Py.float) (n : Z) :
  Py.int_le_float 0 s = true -> Py.scaled n 0 <> S754_nan ->
  Py.float_le_int s n = false <-> Py.int_lt_float n s = true.
Proof.
  intros H0 Hn. unfold Py.float_le_int, Py.int_lt_float.
  apply fle_false_flt; [exact (fle_not_nan _ _ H0) | exact Hn].
Qed.

(** The chain of comparisons of [get_category] cuts the non-negative
    floats (the infinity included) into the four bands. *)
Lemma category_of_score_bands (s : Py.float) :
  Py.int_le_float 0 s = true -> bands_float (category_of_score s) s.
Proof.
  intros H0.
  pose proof (float_le_int_false s 5 H0 ltac:(discriminate)) as H5.
  pose proof (float_le_int_false s 15 H0 ltac:(discriminate)) as H15.
  pose proof (float_le_int_false s 30 H0 ltac:(discriminate)) as H30.
  assert (T1 : Py.float_le_int s 5 = true -> Py.float_le_int s 15 = true).
  { intros H. apply (fle_trans _ _ _ H). reflexivity. }
  assert (T2 : Py.float_le_int s 15 = true -> Py.float_le_int s 30 = true).
  { intros H. apply (fle_trans _ _ _ H). reflexivity. }
  unfold bands_float, category_of_score.
  destruct (Py.float_le_int s 5) eqn:E5;
    destruct (Py.float_le_int s 15) eqn:E15;
    destruct (Py.float_le_int s 30) eqn:E30;
    try (specialize (T1 eq_refl); discriminate);
    try (specialize (T2 eq_refl); discriminate);
    destruct (Py.int_lt_float 5 s) eqn:L5;
    destruct (Py.int_lt_float 15 s) eqn:L15;
    destruct (Py.int_lt_float 30 s) eqn:L30;
    try (destruct H5; intuition discriminate);
    try (destruct H15; intuition discriminate);
    try (destruct H30; intuition discriminate);
    repeat split; intros; try discriminate; intuition (try discriminate; auto).
Qed.

(** On the scores of the data model the float comparisons with the
    thresholds agree with the exact ones. *)
Lemma thresholds_of_tenths (h : Z) :
  0 <= h <= 800 ->
  Py.int_le_float 0 (score_of_tenths h) = true /\
  Py.float_le_int (score_of_tenths h) 5 = (h <=? 50) /\
  Py.float_le_int (score_of_tenths h) 15 = (h <=? 150) /\
  Py.float_le_int (score_of_tenths h) 30 = (h <=? 300) /\
  Py.float_le_int (score_of_tenths h) 80 = true.
Proof.
  intros Hh.
  pose (P := fun h =>
    Py.int_le_float 0 (score_of_tenths h)
    && Bool.eqb (Py.float_le_int (score_of_tenths h) 5) (h <=? 50)
    && Bool.eqb (Py.float_le_int (score_of_tenths h) 15) (h <=? 150)
    && Bool.eqb (Py.float_le_int (score_of_tenths h) 30) (h <=? 300)
    && Py.float_le_int (score_of_tenths h) 80).
  assert (H : P h = true).
  { apply (check_upto P 801); [vm_cast_no_check (eq_refl true) | lia]. }
  unfold P in H.
  repeat (apply andb_prop in H as [H ?]).
  repeat split; try assumption; apply Bool.eqb_prop; assumption.
Qed.

Lemma category_of_tenths (h : Z) :
  0 <= h <= 800 -> category_of_score (score_of_tenths h) = band_of_tenths h.
Proof.
  intros Hh. destruct (thresholds_of_tenths h Hh) as (_ & H5 & H15 & H30 & _).
  unfold category_of_score, band_of_tenths. rewrite H5, H15, H30. reflexivity.
Qed.

Lemma Qle_tenths (h n : Z) : (h # 10 <= inject_Z n)%Q <-> h <= 10 * n.
Proof. unfold Qle; simpl. lia. Qed.

Lemma Qlt_tenths (h n : Z) : (inject_Z n < h # 10)%Q <-> 10 * n < h.
Proof. unfold Qlt; simpl. lia. Qed.

Lemma Qge0_tenths (h : Z) : (0 <= h # 10)%Q <-> 0 <= h.
Proof. unfold Qle; simpl. lia. Qed.

Lemma bands_exact_tenths (h : Z) (q : Q) :
  0 <= h -> (q == h # 10)%Q -> bands_exact (band_of_tenths h) q.
Proof.
  intros Hh Hq. unfold bands_exact. rewrite !Hq.
  change 5%Q with (inject_Z 5). change 15%Q with (inject_Z 15).
  change 30%Q with (inject_Z 30).
  rewrite !Qle_tenths, !Qlt_tenths, Qge0_tenths.
  unfold band_of_tenths.
  destruct (Z.leb_spec h 50); [|destruct (Z.leb_spec h 150);
    [|destruct (Z.leb_spec h 300)]];
    repeat split; intros; try discriminate; try lia; try reflexivity.
Qed.

(** The category of a record of the data model, from its exact tenths. *)
Lemma get_category_in_range (f : ComplexityFactors) :
  in_range f -> get_category f = Some (band_of_tenths (tenths f)).
Proof.
  intros Hf. unfold get_category.
  rewrite (calculate_score_in_range f Hf). cbn [mbind option_bind].
  fold (score_of_tenths (tenths f)).
  rewrite (category_of_tenths _ (tenths_bounds f Hf)). reflexivity.
Qed.

(** C1. For every record of the data model, [calculate_score] returns the
    binary64 number nearest to
    (2*functional_requirements + 3*integration_points + 1.5*ui_components
     + 2*database_changes + 3*external_apis + 4*authentication_features
     + 1.5*file_operations + 3*real_time_features) / 5:
    the weighted sum is computed without any rounding, and the division by
    5 is rounded once, so that the result is within a relative error of
    2^-53 of the exact quotient. *)
Theorem calculate_score_weighted_sum (f : ComplexityFactors) :
  in_range f ->
  calculate_score f = Some (Py.round_Q (spec_score f)) /\
  exists v : Q,
    Py.Q_of_float (Py.round_Q (spec_score f)) = Some v /\
    (Qabs (v - spec_score f) * 2 ^ 53 <= spec_score f)%Q.
Proof.
  intros Hf. pose proof (tenths_bounds f Hf) as Hb.
  pose proof (spec_score_tenths f) as Hq.
  assert (Hr : Py.round_Q (spec_score f) = score_of_tenths (tenths f)).
  { unfold score_of_tenths. rewrite (round_Q_tenths _ Hb). unfold Py.round_Q.
    rewrite (Qred_complete _ _ Hq). reflexivity. }
  split.
  - rewrite Hr. apply calculate_score_in_range, Hf.
  - rewrite Hr. pose proof (close_to_tenths _ Hb) as Hc.
    unfold close_to in Hc. fold (score_of_tenths (tenths f)) in Hc.
    destruct (Py.Q_of_float (score_of_tenths (tenths f))) as [v|];
      [|discriminate].
    exists v. split; [reflexivity|].
    apply Qle_bool_iff in Hc. rewrite Hq. exact Hc.
Qed.

Lemma calculate_score_weighted_sum_witness :
  in_range (mkFactors 1 2 3 4 5 6 7 8) /\
  calculate_score (mkFactors 1 2 3 4 5 6 7 8)
  = Some (Py.round_Q (spec_score (mkFactors 1 2 3 4 5 6 7 8))).
Proof.
  assert (H : in_range (mkFactors 1 2 3 4 5 6 7 8)).
  { unfold in_range; simpl; lia. }
  split; [exact H|].
  exact (proj1 (calculate_score_weighted_sum (mkFactors 1 2 3 4 5 6 7 8) H)).
Defined.

(** C2. For every record of the data model the score is computed, it is
    not negative, and the category is "simple" iff 0 <= s <= 5, "medium"
    iff 5 < s <= 15, "complex" iff 15 < s <= 30 and "enterprise" iff
    s > 30, both for the float s that Python compares and for the exact
    value of the weighted sum divided by 5.  The four bands are therefore
    adjacent, disjoint and cover the non-negative scores. *)
Theorem get_category_bands (f : ComplexityFactors) :
  in_range f ->
  exists (s : Py.float) (c : string),
    calculate_score f = Some s /\
    get_category f = Some c /\
    bands_float c s /\
    bands_exact c (spec_score f).
Proof.
  intros Hf. pose proof (tenths_bounds f Hf) as Hb.
  exists (score_of_tenths (tenths f)), (band_of_tenths (tenths f)).
  pose proof (calculate_score_in_range f Hf) as Hs.
  fold (score_of_tenths (tenths f)) in Hs.
  split; [exact Hs|]. split.
  - apply get_category_in_range, Hf.
  - split.
    + rewrite <- (category_of_tenths _ Hb).
      apply category_of_score_bands.
      apply (thresholds_of_tenths _ Hb).
    + apply bands_exact_tenths; [lia | apply spec_score_tenths].
Qed.

Lemma get_category_bands_witness :
  in_range (mkFactors 0 3 0 0 0 4 0 0) /\
  exists (s : Py.float) (c : string),
    calculate_score (mkFactors 0 3 0 0 0 4 0 0) = Some s /\
    get_category (mkFactors 0 3 0 0 0 4 0 0) = Some c /\
    bands_float c s /\
    bands_exact c (spec_score (mkFactors 0 3 0 0 0 4 0 0)).
Proof.
  assert (H : in_range (mkFactors 0 3 0 0 0 4 0 0)).
  { unfold in_range; simpl; lia. }
  split; [exact H|].
  exact (get_category_bands (mkFactors 0 3 0 0 0 4 0 0) H).
Defined.

(** The boundaries: a score of exactly 5.0, 15.0 or 30.0 stays in the
    lower band, the next reachable score (0.3 more, one UI component) is
    in the upper one. *)
Example boundary_5 :
  calculate_score (mkFactors 0 3 0 0 0 4 0 0) = Some (Py.scaled 5 0) /\
  get_category (mkFactors 0 3 0 0 0 4 0 0) = Some "simple" /\
  get_category (mkFactors 0 3 1 0 0 4 0 0) = Some "medium".
Proof. repeat split; vm_compute; reflexivity. Qed.

Example boundary_15 :
  calculate_score (mkFactors 0 1 0 0 0 18 0 0) = Some (Py.scaled 15 0) /\
  get_category (mkFactors 0 1 0 0 0 18 0 0) = Some "medium" /\
  get_category (mkFactors 0 1 1 0 0 18 0 0) = Some "complex".
Proof. repeat split; vm_compute; reflexivity. Qed.

Example boundary_30 :
  calculate_score (mkFactors 5 20 0 0 0 20 0 0) = Some (Py.scaled 30 0) /\
  get_category (mkFactors 5 20 0 0 0 20 0 0) = Some "complex" /\
  get_category (mkFactors 5 20 1 0 0 20 0 0) = Some "enterprise".
Proof. repeat split; vm_compute; reflexivity. Qed.

(** ** Story and iteration ranges *)

Lemma category_of_score_four (s : Py.float) :
  four_categories (category_of_score s).
Proof.
  unfold four_categories, category_of_score.
  destruct (Py.float_le_int s 5); [tauto|].
  destruct (Py.float_le_int s 15); [tauto|].
  destruct (Py.float_le_int s 30); tauto.
Qed.

Lemma ranges_four (c : string) : four_categories c -> is_Some (ranges !! c).
Proof.
  intros [-> | [-> | [-> | ->]]]; vm_compute; eexists; reflexivity.
Qed.

(** Whatever the record, a category that [get_category] returns is one of
    the four, hence a key of [ranges], and gives the story range. *)
Lemma get_category_any (g : ComplexityFactors) (c : string) :
  get_category g = Some c ->
  four_categories c /\ is_Some (ranges !! c) /\
  get_story_count_range g = Some (ranges_get c).
Proof.
  intros Hc. unfold get_story_count_range. rewrite Hc.
  split; [|split; [|reflexivity]].
  - unfold get_category in Hc.
    destruct (calculate_score g) as [s|]; simpl in Hc; [|discriminate].
    injection Hc as <-. apply category_of_score_four.
  - unfold get_category in Hc.
    destruct (calculate_score g) as [s|]; simpl in Hc; [|discriminate].
    injection Hc as <-. apply ranges_four, category_of_score_four.
Qed.

Lemma ranges_get_other (k : string) :
  ~ four_categories k -> ranges !! k = None /\ ranges_get k = (6, 12).
Proof.
  intros Hk. unfold four_categories in Hk.
  assert (H : ranges !! k = None).
  { unfold ranges. rewrite !lookup_insert_ne by (intros <-; tauto).
    apply lookup_empty. }
  split; [exact H|]. unfold ranges_get. rewrite H. reflexivity.
Qed.

Lemma get_category_four (f : ComplexityFactors) :
  in_range f -> exists c, get_category f = Some c /\ four_categories c.
Proof.
  intros Hf. unfold get_category.
  rewrite (calculate_score_in_range f Hf). simpl.
  eexists; split; [reflexivity | apply category_of_score_four].
Qed.

(** C4. For every record of the data model the story-count range is
    that of its category in the table: (3,5) for "simple", (6,12) for
    "medium", (13,25) for "complex", (26,50) for "enterprise".  A key
    outside these four is absent from the table and gets the medium range
    (6,12); no record at all, of the data model or not, leads there: a
    category that [get_category] returns is one of the four, is a key of
    the table, and its row is the story range. *)
Theorem story_count_range_table (f : ComplexityFactors) :
  in_range f ->
  (exists c : string,
     get_category f = Some c /\ four_categories c /\
     get_story_count_range f = Some (ranges_get c)) /\
  ranges_get "simple" = (3, 5) /\
  ranges_get "medium" = (6, 12) /\
  ranges_get "complex" = (13, 25) /\
  ranges_get "enterprise" = (26, 50) /\
  (forall k : string,
     ~ four_categories k -> ranges !! k = None /\ ranges_get k = (6, 12)) /\
  (forall (g : ComplexityFactors) (c : string),
     get_category g = Some c ->
     four_categories c /\ is_Some (ranges !! c) /\
     get_story_count_range g = Some (ranges_get c)).
Proof.
  intros Hf. split.
  - destruct (get_category_four f Hf) as (c & Hc & H4).
    exists c. repeat split; try assumption.
    unfold get_story_count_range. rewrite Hc. reflexivity.
  - do 4 (split; [vm_compute; reflexivity|]).
    split; [exact ranges_get_other | exact get_category_any].
Qed.

Lemma story_count_range_table_witness :
  in_range (mkFactors 3 1 4 1 5 9 2 6) /\
  exists c : string,
    get_category (mkFactors 3 1 4 1 5 9 2 6) = Some c /\ four_categories c /\
    get_story_count_range (mkFactors 3 1 4 1 5 9 2 6) = Some (ranges_get c).
Proof.
  assert (H : in_range (mkFactors 3 1 4 1 5 9 2 6)).
  { unfold in_range; simpl; lia. }
  split; [exact H|].
  exact (proj1 (story_count_range_table (mkFactors 3 1 4 1 5 9 2 6) H)).
Defined.

(** The rows of the table and their iteration estimates. *)
Lemma iteration_of_row (c : string) :
  four_categories c ->
  iteration_estimate_of (ranges_get c)
  = Some ((ranges_get c).1, spec_iteration_high (ranges_get c).2) /\
  (ranges_get c).2 <= spec_iteration_high (ranges_get c).2 /\
  In ((ranges_get c).2, spec_iteration_high (ranges_get c).2)
    [(5, 7); (12, 18); (25, 37); (50, 75)].
Proof.
  intros [-> | [-> | [-> | ->]]];
    (split; [vm_compute; reflexivity|]);
    (split; [vm_compute; discriminate|]);
    vm_compute; tauto.
Qed.

(** Whatever the record, once the story range is there the iteration
    estimate follows from it. *)
Lemma iteration_estimate_any (g : ComplexityFactors) (lo hi : Z) :
  get_story_count_range g = Some (lo, hi) ->
  get_iteration_estimate g = Some (lo, spec_iteration_high hi) /\
  hi <= spec_iteration_high hi /\
  In (hi, spec_iteration_high hi) [(5, 7); (12, 18); (25, 37); (50, 75)].
Proof.
  intros Hst. unfold get_iteration_estimate. rewrite Hst.
  cbn [mbind option_bind].
  unfold get_story_count_range in Hst.
  destruct (get_category g) as [c|] eqn:Hc; simpl in Hst; [|discriminate].
  destruct (get_category_any g c Hc) as (H4 & _ & _).
  destruct (iteration_of_row c H4) as (H1 & H2 & H3).
  injection Hst as Hst. rewrite Hst in H1, H2, H3. exact (conj H1 (conj H2 H3)).
Qed.

(** C5. For every record of the data model the iteration range has the
    low bound of the story range and floor(story high * 1.5) as its high
    bound, which is at least the story high bound; the four table rows
    give 5 -> 7, 12 -> 18, 25 -> 37 and 50 -> 75.  The same holds of any
    record whatever for which the story range is computed. *)
Theorem iteration_estimate_floor (f : ComplexityFactors) :
  in_range f ->
  (exists lo hi : Z,
     get_story_count_range f = Some (lo, hi) /\
     get_iteration_estimate f = Some (lo, spec_iteration_high hi) /\
     hi <= spec_iteration_high hi /\
     In (hi, spec_iteration_high hi) [(5, 7); (12, 18); (25, 37); (50, 75)]) /\
  iteration_estimate_of (ranges_get "simple") = Some (3, 7) /\
  iteration_estimate_of (ranges_get "medium") = Some (6, 18) /\
  iteration_estimate_of (ranges_get "complex") = Some (13, 37) /\
  iteration_estimate_of (ranges_get "enterprise") = Some (26, 75) /\
  (forall (g : ComplexityFactors) (lo hi : Z),
     get_story_count_range g = Some (lo, hi) ->
     get_iteration_estimate g = Some (lo, spec_iteration_high hi) /\
     hi <= spec_iteration_high hi /\
     In (hi, spec_iteration_high hi) [(5, 7); (12, 18); (25, 37); (50, 75)]).
Proof.
  intros Hf. split.
  - destruct (get_category_four f Hf) as (c & Hc & H4).
    destruct (get_category_any f c Hc) as (_ & _ & Hst).
    destruct (ranges_get c) as [lo hi] eqn:Hr.
    exists lo, hi. split; [exact Hst|].
    apply iteration_estimate_any, Hst.
  - do 4 (split; [vm_compute; reflexivity|]).
    exact iteration_estimate_any.
Qed.

Lemma iteration_estimate_floor_witness :
  in_range (mkFactors 20 20 20 20 20 20 20 20) /\
  exists lo hi : Z,
    get_story_count_range (mkFactors 20 20 20 20 20 20 20 20) = Some (lo, hi) /\
    get_iteration_estimate (mkFactors 20 20 20 20 20 20 20 20)
    = Some (lo, spec_iteration_high hi) /\
    hi <= spec_iteration_high hi /\
    In (hi, spec_iteration_high hi) [(5, 7); (12, 18); (25, 37); (50, 75)].
Proof.
  assert (H : in_range (mkFactors 20 20 20 20 20 20 20 20)).
  { unfold in_range; simpl; lia. }
  split; [exact H|].
  exact (proj1 (iteration_estimate_floor (mkFactors 20 20 20 20 20 20 20 20) H)).
Defined.

(** ** Monotonicity and the maximum *)

Lemma score_of_tenths_step (h : Z) :
  0 <= h < 800 ->
  Py.fle (score_of_tenths h) (score_of_tenths (h + 1)) = true.
Proof.
  intros Hh.
  apply (check_upto
           (fun h => Py.fle (score_of_tenths h) (score_of_tenths (h + 1)))
           800); [vm_cast_no_check (eq_refl true) | lia].
Qed.

Lemma score_of_tenths_refl (h : Z) :
  0 <= h <= 800 -> Py.fle (score_of_tenths h) (score_of_tenths h) = true.
Proof.
  intros Hh.
  apply (check_upto (fun h => Py.fle (score_of_tenths h) (score_of_tenths h))
           801); [vm_cast_no_check (eq_refl true) | lia].
Qed.

Lemma score_of_tenths_mono_nat (n : nat) (h : Z) :
  0 <= h -> h + Z.of_nat n <= 800 ->
  Py.fle (score_of_tenths h) (score_of_tenths (h + Z.of_nat n)) = true.
Proof.
  induction n as [|n IH]; intros H0 Hn.
  - replace (h + Z.of_nat 0) with h by lia. apply score_of_tenths_refl. lia.
  - apply (fle_trans _ (score_of_tenths (h + Z.of_nat n))).
    + apply IH; lia.
    + replace (h + Z.of_nat (S n)) with (h + Z.of_nat n + 1) by lia.
      apply score_of_tenths_step. lia.
Qed.

Lemma score_of_tenths_mono (h k : Z) :
  0 <= h -> h <= k -> k <= 800 ->
  Py.fle (score_of_tenths h) (score_of_tenths k) = true.
Proof.
  intros H0 Hhk Hk.
  replace k with (h + Z.of_nat (Z.to_nat (k - h))) by lia.
  apply score_of_tenths_mono_nat; lia.
Qed.

Lemma tenths_mono_one (f g : ComplexityFactors) (k : factor) :
  (forall j, j <> k -> count j f = count j g) ->
  count k f <= count k g ->
  tenths f <= tenths g.
Proof.
  intros Hsame Hk.
  assert (H1 := Hsame Functional_requirements).
  assert (H2 := Hsame Integration_points).
  assert (H3 := Hsame Ui_components).
  assert (H4 := Hsame Database_changes).
  assert (H5 := Hsame External_apis).
  assert (H6 := Hsame Authentication_features).
  assert (H7 := Hsame File_operations).
  assert (H8 := Hsame Real_time_features).
  unfold tenths.
  destruct k; simpl in *;
    repeat match goal with
           | H : ?a <> ?b -> _ |- _ =>
               first [ specialize (H ltac:(discriminate)) | clear H ]
           end;
    lia.
Qed.

(** C7. For two records that agree on seven counts, the one with the
    larger eighth count has the score that is greater or equal: the exact
    weighted sums divided by 5 compare so for all integer counts, and for
    records of the data model the floats that [calculate_score] returns
    are both there and compare with [<=]. *)
Theorem score_monotone (f g : ComplexityFactors) (k : factor) :
  (forall j, j <> k -> count j f = count j g) ->
  count k f <= count k g ->
  (spec_score f <= spec_score g)%Q /\
  (in_range f -> in_range g ->
   exists s t : Py.float,
     calculate_score f = Some s /\ calculate_score g = Some t /\
     Py.fle s t = true).
Proof.
  intros Hsame Hk.
  pose proof (tenths_mono_one f g k Hsame Hk) as Hle.
  split.
  - rewrite (spec_score_tenths f), (spec_score_tenths g).
    unfold Qle; simpl. lia.
  - intros Hf Hg.
    pose proof (tenths_bounds f Hf) as Hbf.
    pose proof (tenths_bounds g Hg) as Hbg.
    exists (score_of_tenths (tenths f)), (score_of_tenths (tenths g)).
    repeat split; try (apply calculate_score_in_range; assumption).
    apply score_of_tenths_mono; lia.
Qed.

Lemma score_monotone_witness :
  (spec_score (mkFactors 1 2 3 4 5 6 7 8)
   <= spec_score (mkFactors 1 2 9 4 5 6 7 8))%Q /\
  exists s t : Py.float,
    calculate_score (mkFactors 1 2 3 4 5 6 7 8) = Some s /\
    calculate_score (mkFactors 1 2 9 4 5 6 7 8) = Some t /\
    Py.fle s t = true.
Proof.
  assert (Hsame : forall j, j <> Ui_components ->
                    count j (mkFactors 1 2 3 4 5 6 7 8)
                    = count j (mkFactors 1 2 9 4 5 6 7 8)).
  { intros j Hj. destruct j; try reflexivity. contradiction. }
  assert (Hk : count Ui_components (mkFactors 1 2 3 4 5 6 7 8)
               <= count Ui_components (mkFactors 1 2 9 4 5 6 7 8)).
  { simpl. lia. }
  destruct (score_monotone _ _ Ui_components Hsame Hk) as [Hq Hfl].
  split; [exact Hq|]. apply Hfl; unfold in_range; simpl; lia.
Defined.

Lemma float_eqb_refl (x : Py.float) : float_eqb x x = true.
Proof.
  destruct x as [s|s| |s m e]; simpl; try reflexivity;
    try (destruct s; reflexivity).
  rewrite Pos.eqb_refl, Z.eqb_refl. destruct s; reflexivity.
Qed.

Lemma score_80_tenths (h : Z) :
  0 <= h <= 800 -> score_of_tenths h = Py.scaled 80 0 <-> h = 800.
Proof.
  intros Hh.
  assert (H : float_eqb (score_of_tenths h) (Py.scaled 80 0) = (h =? 800)).
  { apply Bool.eqb_prop.
    apply (check_upto
             (fun h => Bool.eqb (float_eqb (score_of_tenths h) (Py.scaled 80 0))
                                (h =? 800))
             801); [vm_cast_no_check (eq_refl true) | lia]. }
  split.
  - intros E. rewrite E, float_eqb_refl in H. symmetry in H.
    apply Z.eqb_eq in H. exact H.
  - intros ->. reflexivity.
Qed.

Lemma tenths_800 (f : ComplexityFactors) :
  in_range f -> tenths f = 800 <-> f = all_twenty.
Proof.
  intros Hf. split.
  - destruct f as [fr ip ui db ea au fo rt].
    unfold in_range, tenths in *; simpl in *. intros H.
    unfold all_twenty. f_equal; lia.
  - intros ->. reflexivity.
Qed.

(** C10. For every record whose eight counts all lie in [0, 20] the
    score is computed, lies between 0 and 80.0, and equals 80.0 exactly
    when all eight counts are 20, for the float and for the exact value
    alike; so on these records "enterprise" means 30 < s <= 80. *)
Theorem score_at_most_80 (f : ComplexityFactors) :
  in_range f ->
  exists s : Py.float,
    calculate_score f = Some s /\
    Py.int_le_float 0 s = true /\ Py.float_le_int s 80 = true /\
    (s = Py.scaled 80 0 <-> f = all_twenty) /\
    (0 <= spec_score f /\ spec_score f <= 80)%Q /\
    (spec_score f == 80 <-> f = all_twenty)%Q /\
    (get_category f = Some "enterprise" <->
       (30 < spec_score f /\ spec_score f <= 80)%Q).
Proof.
  intros Hf. pose proof (tenths_bounds f Hf) as Hb.
  pose proof (spec_score_tenths f) as Hq.
  destruct (thresholds_of_tenths _ Hb) as (H0 & _ & _ & _ & H80).
  exists (score_of_tenths (tenths f)).
  split; [apply calculate_score_in_range, Hf|].
  split; [exact H0|]. split; [exact H80|].
  split; [rewrite (score_80_tenths _ Hb); apply tenths_800, Hf|].
  assert (Hle : (0 <= spec_score f /\ spec_score f <= 80)%Q).
  { rewrite Hq. unfold Qle; simpl. lia. }
  split; [exact Hle|]. split.
  - rewrite <- (tenths_800 f Hf), Hq. unfold Qeq; simpl. lia.
  - rewrite (get_category_in_range f Hf).
    destruct (bands_exact_tenths (tenths f) (spec_score f) ltac:(lia) Hq)
      as (_ & _ & _ & He).
    split.
    + intros [= Hc]. split; [apply He, Hc | apply Hle].
    + intros [H30 _]. f_equal. apply He, H30.
Qed.

Lemma score_at_most_80_witness :
  in_range all_twenty /\
  exists s : Py.float,
    calculate_score all_twenty = Some s /\
    Py.int_le_float 0 s = true /\ Py.float_le_int s 80 = true /\
    (s = Py.scaled 80 0 <-> all_twenty = all_twenty) /\
    (0 <= spec_score all_twenty /\ spec_score all_twenty <= 80)%Q /\
    (spec_score all_twenty == 80 <-> all_twenty = all_twenty)%Q /\
    (get_category all_twenty = Some "enterprise" <->
       (30 < spec_score all_twenty /\ spec_score all_twenty <= 80)%Q).
Proof.
  assert (H : in_range all_twenty).
  { unfold in_range; simpl; lia. }
  split; [exact H|].
  exact (score_at_most_80 all_twenty H).
Defined.

Example score_all_twenty :
  calculate_score all_twenty = Some (Py.scaled 80 0).
Proof. vm_compute. reflexivity. Qed.

(** ** Capturing groups that every match binds *)

Lemma always_keeps n k : always n k -> keeps n k.
Proof. intros H s cs res _. apply H. Qed.

Lemma bound_cons n m t cs : bound n cs -> bound n ((m, t) :: cs).
Proof.
  unfold bound; simpl. destruct (m =? n)%nat; [eexists; reflexivity | auto].
Qed.

Lemma bound_here n t cs : bound n ((n, t) :: cs).
Proof. unfold bound; simpl. rewrite Nat.eqb_refl. eexists; reflexivity. Qed.

Section Loop.
Variable n : nat.
Variable body : Re.str -> Re.caps -> Re.cont -> option Re.result.
Variable greedy : bool.

Lemma star_loop_S (k : Re.cont) (fuel : nat) (s : Re.str) (cs : Re.caps) :
  Re.star_loop body greedy k (S fuel) s cs
  = if greedy
    then Re.or_else (body s cs (again body greedy k fuel s)) (fun _ => k s cs)
    else Re.or_else (k s cs) (fun _ => body s cs (again body greedy k fuel s)).
Proof. reflexivity. Qed.

Lemma star_loop_O (k : Re.cont) (s : Re.str) (cs : Re.caps) :
  Re.star_loop body greedy k O s cs = k s cs.
Proof.
  simpl. destruct greedy; simpl; [reflexivity|].
  destruct (k s cs); reflexivity.
Qed.

Lemma star_loop_always (k : Re.cont) :
  (forall k', always n k' -> always n (fun s cs => body s cs k')) ->
  always n k ->
  forall fuel, always n (Re.star_loop body greedy k fuel).
Proof.
  intros Hbody Hk fuel. induction fuel as [|fuel IH]; intros s cs res.
  - rewrite star_loop_O. apply Hk.
  - assert (Hagain : always n (again body greedy k fuel s)).
    { intros s' cs' r'. unfold again.
      destruct (length s' <? length s)%nat; [apply IH | discriminate]. }
    rewrite star_loop_S. unfold Re.or_else.
    destruct greedy.
    + destruct (body s cs _) eqn:E.
      * intros [= <-]. exact (Hbody _ Hagain _ _ _ E).
      * apply Hk.
    + destruct (k s cs) eqn:E.
      * intros [= <-]. exact (Hk _ _ _ E).
      * apply (Hbody _ Hagain).
Qed.

Lemma star_loop_keeps (k : Re.cont) :
  (forall k', keeps n k' -> keeps n (fun s cs => body s cs k')) ->
  keeps n k ->
  forall fuel, keeps n (Re.star_loop body greedy k fuel).
Proof.
  intros Hbody Hk fuel. induction fuel as [|fuel IH]; intros s cs res Hcs.
  - rewrite star_loop_O. apply Hk, Hcs.
  - assert (Hagain : keeps n (again body greedy k fuel s)).
    { intros s' cs' r' Hb. unfold again.
      destruct (length s' <? length s)%nat; [apply IH, Hb | discriminate]. }
    rewrite star_loop_S. unfold Re.or_else.
    destruct greedy.
    + destruct (body s cs _) eqn:E.
      * intros [= <-]. exact (Hbody _ Hagain _ _ _ Hcs E).
      * apply Hk, Hcs.
    + destruct (k s cs) eqn:E.
      * intros [= <-]. exact (Hk _ _ _ Hcs E).
      * apply (Hbody _ Hagain), Hcs.
Qed.
End Loop.

Lemma run_always n ic r :
  forall k, always n k -> always n (fun s cs => Re.run r ic s cs k).
Proof.
  induction r as [ |c| |neg its|a IHa b IHb|a IHa b IHb|g a IHa|m a IHa| ];
    intros k Hk s cs res; simpl.
  - apply Hk.
  - destruct s as [|x s']; [discriminate|].
    destruct (Re.chr_match ic c x); [apply Hk | discriminate].
  - destruct s as [|x s']; [discriminate|].
    destruct (x =? Re.newline)%char; [discriminate | apply Hk].
  - destruct s as [|x s']; [discriminate|].
    destruct (Re.set_match ic neg its x); [apply Hk | discriminate].
  - apply (IHa _ (IHb _ Hk)).
  - unfold Re.or_else. destruct (Re.run a ic s cs k) eqn:E.
    + intros [= <-]. apply (IHa _ Hk _ _ _ E).
    + apply (IHb _ Hk).
  - apply star_loop_always; [exact IHa | exact Hk].
  - apply IHa. intros s' cs' r'. apply Hk.
  - destruct s as [|x [|y s']]; [apply Hk | | discriminate].
    destruct (x =? Re.newline)%char; [apply Hk | discriminate].
Qed.

Lemma run_keeps n ic r :
  forall k, keeps n k -> keeps n (fun s cs => Re.run r ic s cs k).
Proof.
  induction r as [ |c| |neg its|a IHa b IHb|a IHa b IHb|g a IHa|m a IHa| ];
    intros k Hk s cs res Hcs; simpl.
  - apply Hk, Hcs.
  - destruct s as [|x s']; [discriminate|].
    destruct (Re.chr_match ic c x); [apply Hk, Hcs | discriminate].
  - destruct s as [|x s']; [discriminate|].
    destruct (x =? Re.newline)%char; [discriminate | apply Hk, Hcs].
  - destruct s as [|x s']; [discriminate|].
    destruct (Re.set_match ic neg its x); [apply Hk, Hcs | discriminate].
  - apply (IHa _ (IHb _ Hk)), Hcs.
  - unfold Re.or_else. destruct (Re.run a ic s cs k) eqn:E.
    + intros [= <-]. apply (IHa _ Hk _ _ _ Hcs E).
    + apply (IHb _ Hk), Hcs.
  - apply star_loop_keeps; [exact IHa | exact Hk | exact Hcs].
  - apply IHa; [|exact Hcs]. intros s' cs' r' Hb. apply Hk, bound_cons, Hb.
  - destruct s as [|x [|y s']]; [apply Hk, Hcs | | discriminate].
    destruct (x =? Re.newline)%char; [apply Hk, Hcs | discriminate].
Qed.

Lemma run_binds n ic r :
  binds n r = true ->
  forall k, keeps n k -> always n (fun s cs => Re.run r ic s cs k).
Proof.
  induction r as [ |c| |neg its|a IHa b IHb|a IHa b IHb|g a IHa|m a IHa| ];
    simpl; try discriminate; intros Hb k Hk s cs res.
  - apply orb_prop in Hb as [Ha | Hb'].
    + apply (IHa Ha). apply run_keeps, Hk.
    + apply run_always. apply (IHb Hb' _ Hk).
  - apply andb_prop in Hb as [Ha Hb']. unfold Re.or_else.
    destruct (Re.run a ic s cs k) eqn:E.
    + intros [= <-]. apply (IHa Ha _ Hk _ _ _ E).
    + apply (IHb Hb' _ Hk).
  - destruct (Nat.eqb_spec m n) as [-> | Hne].
    + apply run_always. intros s' cs' r'. apply Hk, bound_here.
    + simpl in Hb. apply (IHa Hb).
      intros s' cs' r' Hb'. apply Hk, bound_cons, Hb'.
Qed.

(** A pattern that binds group [n] has it in every match that [search]
    returns. *)
Lemma search_binds n ic r s res :
  binds n r = true -> Re.search r ic s = Some res -> bound n res.2.
Proof.
  intros Hb. induction s as [|x s IH]; simpl.
  - destruct (Re.match_here r ic []) eqn:E; [|discriminate].
    intros [= <-]. unfold Re.match_here in E.
    apply (run_binds n ic r Hb (fun s' cs => Some (s', cs))) in E; [exact E|].
    intros s' cs' r' Hcs [= <-]. exact Hcs.
  - destruct (Re.match_here r ic (x :: s)) eqn:E; [|exact IH].
    intros [= <-]. unfold Re.match_here in E.
    apply (run_binds n ic r Hb (fun s' cs => Some (s', cs))) in E; [exact E|].
    intros s' cs' r' Hcs [= <-]. exact Hcs.
Qed.

(** ** Slugs *)

Lemma compile_slug_re : Re.compile "[^a-z0-9]+" = Some slug_re.
Proof. reflexivity. Qed.

(** A greedy star over a set takes the longest run. *)
Lemma star_set_greedy (neg : bool) (its : list Re.item) (fuel : nat) :
  forall (s : Re.str) (cs : Re.caps),
    (length s <= fuel)%nat ->
    Re.star_loop (Re.run (Re.Set_ neg its) false) true
      (fun s' cs' => Some (s', cs')) fuel s cs
    = Some (Re.lstrip (Re.set_match false neg its) s, cs).
Proof.
  induction fuel as [|fuel IH]; intros s cs Hlen.
  - destruct s; [reflexivity | simpl in Hlen; lia].
  - rewrite star_loop_S. destruct s as [|x s]; [reflexivity|].
    cbn [Re.run Re.lstrip].
    destruct (Re.set_match false neg its x); [|reflexivity].
    unfold again. replace (length s <? length (x :: s))%nat with true
      by (symmetry; apply Nat.ltb_lt; simpl; lia).
    rewrite IH by (simpl in Hlen; lia). reflexivity.
Qed.

Lemma match_here_slug_re (s : Re.str) :
  Re.match_here slug_re false s
  = match s with
    | x :: s' => if not_slug x then Some (Re.lstrip not_slug s', []) else None
    | [] => None
    end.
Proof.
  destruct s as [|x s']; [reflexivity|].
  pose proof (star_set_greedy true slug_items (length s') s' []
                (Nat.le_refl _)) as H.
  unfold Re.match_here, slug_re, Re.plus. cbn [Re.run].
  fold (not_slug x). destruct (not_slug x); [exact H | reflexivity].
Qed.

Lemma length_lstrip (p : ascii -> bool) (s : Re.str) :
  (length (Re.lstrip p s) <= length s)%nat.
Proof.
  induction s as [|c s IH]; simpl; [lia|].
  destruct (p c); simpl; lia.
Qed.

Lemma lower_not_upper (c : ascii) : Re.is_upper (Re.lower c) = false.
Proof. destruct c as [[] [] [] [] [] [] [] []]; reflexivity. Qed.

Lemma lowered_str_lower (s : Re.str) : lowered (Re.str_lower s).
Proof.
  induction s as [|c s IH]; constructor; [apply lower_not_upper | exact IH].
Qed.

Lemma not_slug_alnum (c : ascii) :
  Re.is_upper c = false -> not_slug c = negb (Re.is_alnum c).
Proof.
  intros H. unfold not_slug, Re.set_match, Re.is_alnum, slug_items. simpl.
  rewrite H. unfold Re.is_lower, Re.is_digit.
  rewrite orb_false_r. reflexivity.
Qed.

Lemma lowered_lstrip (p : ascii -> bool) (s : Re.str) :
  lowered s -> lowered (Re.lstrip p s).
Proof.
  induction 1 as [|c s Hc Hs IH]; simpl; [constructor|].
  destruct (p c); [exact IH | constructor; assumption].
Qed.

Lemma collapse_runs_in_run (s : Re.str) :
  lowered s ->
  collapse_runs true s = collapse_runs false (Re.lstrip not_slug s).
Proof.
  induction 1 as [|c s Hc Hs IH]; simpl; [reflexivity|].
  rewrite (not_slug_alnum c Hc).
  destruct (Re.is_alnum c) eqn:E; simpl; [rewrite E; reflexivity | exact IH].
Qed.

Lemma sub_from_collapse (n : nat) :
  forall s : Re.str,
    lowered s -> (length s <= n)%nat ->
    Re.sub_from slug_re ["-"%char] n s = collapse_runs false s.
Proof.
  induction n as [|n IH]; intros s Hlow Hlen.
  - destruct s; [reflexivity | simpl in Hlen; lia].
  - destruct s as [|c t]; [reflexivity|].
    inversion Hlow as [|? ? Hc Ht]; subst.
    cbn [Re.sub_from]. rewrite match_here_slug_re.
    rewrite (not_slug_alnum c Hc). cbn [collapse_runs].
    destruct (Re.is_alnum c); cbn [negb].
    + rewrite IH; [reflexivity | exact Ht | simpl in Hlen; lia].
    + pose proof (length_lstrip not_slug t) as Hl.
      replace (length (Re.lstrip not_slug t) <? length (c :: t))%nat
        with true by (symmetry; apply Nat.ltb_lt; simpl; lia).
      rewrite IH;
        [| apply lowered_lstrip, Ht | simpl in Hlen; lia].
      rewrite (collapse_runs_in_run t Ht). reflexivity.
Qed.

(** The slug of the source is the slug of the specification. *)
Lemma kebab_spec (title : Re.str) : kebab title = Some (spec_slugify title).
Proof.
  unfold kebab, Re.sub_str. rewrite compile_slug_re. cbn [mbind option_bind].
  unfold spec_slugify, Re.sub.
  rewrite sub_from_collapse; [reflexivity | apply lowered_str_lower | lia].
Qed.

(** ** Feature and project names *)

(** For a well-formed pattern, searching and reading group 1 never
    raises: the loop body amounts to a case on [first_group]. *)
Lemma search_groups_first_group (A : Type) (pattern text : string)
    (found : Re.str -> option A) (missing : option A) :
  well_formed pattern = true ->
  (m ← Re.search_groups pattern text true;
   match m with
   | Some groups => g ← Re.group groups 1; found g
   | None => missing
   end)
  = match first_group pattern text with
    | Some g => found g
    | None => missing
    end.
Proof.
  unfold well_formed, Re.search_groups, first_group.
  destruct (Re.compile pattern) as [r|]; [|discriminate]. intros Hb.
  cbn [mbind option_bind].
  destruct (Re.search r true (list_ascii_of_string text))
    as [[rest groups]|] eqn:E; cbn; [|reflexivity].
  destruct (search_binds 1 true r _ _ Hb E) as [g Hg]. cbn in Hg.
  rewrite Hg. reflexivity.
Qed.

Lemma content_init (prd : string) (arch : option string) :
  content (ComplexityAnalyzer_init prd arch) = str_lower prd.
Proof. reflexivity. Qed.

Lemma feature_name_loop_spec (text : string) :
  feature_name_loop title_patterns text = Some (spec_feature_name text).
Proof.
  unfold title_patterns, spec_feature_name. cbn [feature_name_loop].
  rewrite !search_groups_first_group by reflexivity.
  destruct (first_group _ text); [apply kebab_spec|].
  destruct (first_group _ text); [apply kebab_spec|].
  destruct (first_group _ text); [apply kebab_spec | reflexivity].
Qed.

Lemma project_name_loop_spec (text : string) :
  project_name_loop project_patterns text = Some (project_name_cases text).
Proof.
  unfold project_patterns, project_name_cases. cbn [project_name_loop].
  rewrite !search_groups_first_group by reflexivity.
  destruct (first_group _ text); [reflexivity|].
  destruct (first_group _ text); reflexivity.
Qed.

(** C9, what the code does.  The text that [extract_project_name]
    searches is lower-cased, so no capital letter is ever seen, and with
    [re.IGNORECASE] the class [A-Z] of the second pattern accepts any
    letter: a phrase without any capital ("plain") is returned where the
    fallback was due, and a capitalised name comes back in lower case,
    or with the words before it. *)
Theorem extract_project_name_ignores_case :
  (forall (prd : string) (arch : option string),
     lowered (list_ascii_of_string
                (content (ComplexityAnalyzer_init prd arch)))) /\
  extract_project_name (ComplexityAnalyzer_init "in plain app" None)
  = Some "plain"%string /\
  extract_project_name
    (ComplexityAnalyzer_init "Build this for the Acme Portal app" None)
  = Some "acme portal"%string /\
  extract_project_name
    (ComplexityAnalyzer_init "Implement login for the Acme Portal app" None)
  = Some "for the acme portal"%string /\
  extract_project_name (ComplexityAnalyzer_init "Project: Acme Portal" None)
  = Some "acme portal"%string /\
  extract_project_name (ComplexityAnalyzer_init "nothing to see" None)
  = Some "Project"%string.
Proof.
  split.
  - intros prd arch. rewrite content_init. unfold str_lower.
    rewrite list_ascii_of_string_of_list_ascii. apply lowered_str_lower.
  - repeat split; vm_compute; reflexivity.
Qed.

(** ** The analysis *)

Lemma raw_count_nonneg (patterns : list string) (text : string) :
  0 <= raw_count patterns text.
Proof.
  unfold raw_count. induction patterns as [|p ps IH]; cbn [map foldr]; lia.
Qed.

Lemma count_loop_sum (patterns : list string) (text : string) :
  forallb compiles patterns = true ->
  forall count : Z,
    count_loop patterns text count = Some (count + raw_count patterns text).
Proof.
  unfold raw_count.
  induction patterns as [|p ps IH]; intros Hc count;
    cbn [count_loop map foldr].
  - f_equal. lia.
  - cbn [forallb] in Hc. apply andb_prop in Hc as [Hp Hps].
    assert (E : exists n, Re.findall_len p text true = Some n).
    { unfold compiles in Hp. unfold Re.findall_len.
      destruct (Re.compile p) as [r|]; [|discriminate].
      eexists. reflexivity. }
    destruct E as [n E]. rewrite E. cbn [mbind option_bind default].
    rewrite (IH Hps). f_equal. unfold id. lia.
Qed.

Lemma analyze_loop_fold (items : list (string * list string)) (text : string) :
  all_compile items = true ->
  forall factors : ComplexityFactors,
    analyze_loop items text factors
    = Some (fold_left (fun f it => setattr f it.1 (capped text it.2))
              items factors).
Proof.
  induction items as [|[name ps] items IH]; intros Hc factors; simpl.
  - reflexivity.
  - apply andb_prop in Hc as [Hp Hrest]. simpl in Hp.
    rewrite (count_loop_sum ps text Hp 0). cbn [mbind option_bind].
    rewrite (IH Hrest). reflexivity.
Qed.

Lemma PATTERNS_compile : all_compile PATTERNS = true.
Proof. vm_compute. reflexivity. Qed.

(** The eight assignments of the loop fill the eight fields. *)
Lemma fold_setattr_table (g : list string -> Z)
    (p1 p2 p3 p4 p5 p6 p7 p8 : list string) (factors : ComplexityFactors) :
  fold_left (fun f it => setattr f it.1 (g it.2))
    [("functional_requirements", p1); ("integration_points", p2);
     ("ui_components", p3); ("database_changes", p4);
     ("external_apis", p5); ("authentication_features", p6);
     ("file_operations", p7); ("real_time_features", p8)]%string factors
  = mkFactors (g p1) (g p2) (g p3) (g p4) (g p5) (g p6) (g p7) (g p8).
Proof. destruct factors. reflexivity. Qed.

Lemma getattr_table (g : list string -> Z)
    (p1 p2 p3 p4 p5 p6 p7 p8 : list string)
    (name : string) (patterns : list string) :
  In (name, patterns)
    [("functional_requirements", p1); ("integration_points", p2);
     ("ui_components", p3); ("database_changes", p4);
     ("external_apis", p5); ("authentication_features", p6);
     ("file_operations", p7); ("real_time_features", p8)]%string ->
  getattr (mkFactors (g p1) (g p2) (g p3) (g p4) (g p5) (g p6) (g p7) (g p8))
    name = Some (g patterns).
Proof.
  intros H. repeat (destruct H as [H | H]; [injection H as <- <-; reflexivity|]).
  destruct H.
Qed.

Lemma capped_range (text : string) (patterns : list string) :
  0 <= capped text patterns <= 20.
Proof.
  unfold capped. pose proof (raw_count_nonneg patterns text). lia.
Qed.

(** [analyze] raises nothing; each field of its record is the capped sum
    of the matches of the patterns listed under its name. *)
Lemma analyze_capped (self : ComplexityAnalyzer) :
  exists f : ComplexityFactors,
    analyze self = Some f /\ in_range f /\
    forall (name : string) (patterns : list string),
      In (name, patterns) PATTERNS ->
      getattr f name = Some (capped (combined_content self) patterns).
Proof.
  unfold analyze. rewrite (analyze_loop_fold _ _ PATTERNS_compile).
  unfold PATTERNS.
  rewrite (fold_setattr_table (capped (combined_content self))).
  eexists. split; [reflexivity|]. split.
  - unfold in_range; cbn [functional_requirements integration_points
      ui_components database_changes external_apis authentication_features
      file_operations real_time_features].
    repeat split; apply capped_range.
  - intros name patterns. apply getattr_table.
Qed.

(** C3. For every PRD text and every architecture text, [analyze]
    returns a record, each of its eight counts lies in [0, 20], and the
    count filed under a factor is the sum of the matches of that factor's
    patterns in the combined text, cut at 20: min(sum, 20). *)
Theorem analyze_counts_capped (prd : string) (arch : option string) :
  exists f : ComplexityFactors,
    analyze (ComplexityAnalyzer_init prd arch) = Some f /\
    in_range f /\
    forall (name : string) (patterns : list string),
      In (name, patterns) PATTERNS ->
      getattr f name
      = Some (Z.min
                (raw_count patterns
                   (combined_content (ComplexityAnalyzer_init prd arch)))
                20).
Proof. apply analyze_capped. Qed.

(** Thirty buttons: the raw sum is 30, the recorded count 20. *)
Example analyze_saturates :
  let thirty :=
    "button button button button button button button button button button button button button button button button button button button button button button button button button button button button button button"%string in
  raw_count ["(?:button|form|modal|dialog|dropdown|menu|table|list|card|panel)";
             "(?:page|screen|view|component|widget)";
             "(?:display|show|render|present)";
             "UI/UX";
             "(?:click|tap|hover|drag|drop)"]%string
    (combined_content (ComplexityAnalyzer_init thirty None)) = 30 /\
  analyze (ComplexityAnalyzer_init thirty None)
  = Some (mkFactors 0 0 20 0 0 0 0 0).
Proof. split; vm_compute; reflexivity. Qed.

(** ** Totality *)

(** On a record of the data model every method of the scorer returns. *)
Lemma scorer_total (f : ComplexityFactors) :
  in_range f ->
  exists (s : Py.float) (c : string) (story iter : Z * Z),
    calculate_score f = Some s /\ get_category f = Some c /\
    get_story_count_range f = Some story /\
    get_iteration_estimate f = Some iter.
Proof.
  intros Hf. destruct (get_category_four f Hf) as (c & Hc & H4).
  exists (score_of_tenths (tenths f)), c, (ranges_get c).
  unfold get_iteration_estimate, get_story_count_range. rewrite Hc.
  cbn [mbind option_bind].
  destruct H4 as [-> | [-> | [-> | ->]]]; eexists;
    (split; [apply calculate_score_in_range, Hf|]);
    (split; [reflexivity|]); (split; [reflexivity|]);
    vm_compute; reflexivity.
Qed.

(** C6. The analysis raises nothing: for every PRD text, with or without
    an architecture text, [analyze] returns a record, and on that record
    the score, the category, the story range and the iteration range are
    all computed; the two names are extracted as well.  For the empty PRD
    text without architecture text the eight counts are 0, the score is
    0.0, the category "simple", the story range (3,5) and the iteration
    range (3,7). *)
Theorem analysis_total :
  (forall (prd : string) (arch : option string),
     exists (f : ComplexityFactors) (s : Py.float) (c : string)
            (story iter : Z * Z) (feature project : string),
       analyze (ComplexityAnalyzer_init prd arch) = Some f /\
       calculate_score f = Some s /\
       get_category f = Some c /\
       get_story_count_range f = Some story /\
       get_iteration_estimate f = Some iter /\
       extract_feature_name (ComplexityAnalyzer_init prd arch) = Some feature /\
       extract_project_name (ComplexityAnalyzer_init prd arch) = Some project) /\
  analyze (ComplexityAnalyzer_init "" None) = Some ComplexityFactors_new /\
  calculate_score ComplexityFactors_new = Some (S754_zero false) /\
  get_category ComplexityFactors_new = Some "simple"%string /\
  get_story_count_range ComplexityFactors_new = Some (3, 5) /\
  get_iteration_estimate ComplexityFactors_new = Some (3, 7).
Proof.
  split.
  - intros prd arch.
    destruct (analyze_capped (ComplexityAnalyzer_init prd arch))
      as (f & Hf & Hr & _).
    destruct (scorer_total f Hr) as (s & c & story & iter & Hs & Hc & Hst & Hit).
    exists f, s, c, story, iter.
    exists (spec_feature_name (str_lower prd)),
           (project_name_cases (str_lower prd)).
    repeat (split; [assumption|]). split.
    + unfold extract_feature_name. rewrite content_init.
      apply feature_name_loop_spec.
    + unfold extract_project_name. rewrite content_init.
      apply project_name_loop_spec.
  - repeat split; vm_compute; reflexivity.
Qed.

(** ** Groups are pieces of the text *)

Lemma end_of_refl (s : Re.str) : end_of s s.
Proof. exists []. reflexivity. Qed.

Lemma end_of_trans (a b c : Re.str) : end_of a b -> end_of b c -> end_of a c.
Proof. intros [p ->] [q ->]. exists (p ++ q). apply app_assoc. Qed.

Lemma end_of_cons (x : ascii) (s : Re.str) : end_of (x :: s) s.
Proof. exists [x]. reflexivity. Qed.

Lemma piece_of_trans (a b c : Re.str) :
  piece_of a b -> piece_of b c -> piece_of a c.
Proof.
  intros (p & q & ->) (p' & q' & ->). exists (p ++ p'), (q' ++ q).
  rewrite <- !app_assoc. reflexivity.
Qed.

Section Cuts.
Variable whole : Re.str.

Lemma star_loop_cuts
    (body : Re.str -> Re.caps -> Re.cont -> option Re.result)
    (greedy : bool) :
  cuts whole body ->
  forall fuel,
    cuts whole (fun s cs k => Re.star_loop body greedy k fuel s cs).
Proof.
  intros Hbody fuel. induction fuel as [|fuel IH]; intros k s cs res Hs Hcs.
  - rewrite star_loop_O. intros Hk. exists s, cs.
    split; [apply end_of_refl | auto].
  - rewrite star_loop_S.
    assert (Hmore :
      body s cs (again body greedy k fuel s) = Some res ->
      exists s' cs',
        end_of s s' /\ Forall (fun nt => piece_of whole nt.2) cs' /\
        k s' cs' = Some res).
    { intros Hb. destruct (Hbody _ _ _ _ Hs Hcs Hb) as (s1 & cs1 & H1 & H2 & H3).
      unfold again in H3.
      destruct (length s1 <? length s)%nat; [|discriminate].
      destruct (IH _ _ _ _ (end_of_trans _ _ _ Hs H1) H2 H3)
        as (s2 & cs2 & H4 & H5 & H6).
      exists s2, cs2. split; [exact (end_of_trans _ _ _ H1 H4) | auto]. }
    unfold Re.or_else. destruct greedy.
    + destruct (body s cs _) as [r|] eqn:E.
      * intros [= <-]. apply Hmore. reflexivity.
      * intros Hk. exists s, cs. split; [apply end_of_refl | auto].
    + destruct (k s cs) as [r|] eqn:E.
      * intros [= <-]. exists s, cs. split; [apply end_of_refl | auto].
      * exact Hmore.
Qed.

Lemma run_cuts (ic : bool) (r : Re.regex) : cuts whole (Re.run r ic).
Proof.
  induction r as [ |c| |neg its|a IHa b IHb|a IHa b IHb|g a IHa|m a IHa| ];
    intros k s cs res Hs Hcs; cbn [Re.run].
  - intros Hk. exists s, cs. split; [apply end_of_refl | auto].
  - destruct s as [|x s']; [discriminate|].
    destruct (Re.chr_match ic c x); [|discriminate].
    intros Hk. exists s', cs. split; [apply end_of_cons | auto].
  - destruct s as [|x s']; [discriminate|].
    destruct (x =? Re.newline)%char; [discriminate|].
    intros Hk. exists s', cs. split; [apply end_of_cons | auto].
  - destruct s as [|x s']; [discriminate|].
    destruct (Re.set_match ic neg its x); [|discriminate].
    intros Hk. exists s', cs. split; [apply end_of_cons | auto].
  - intros H. destruct (IHa _ _ _ _ Hs Hcs H) as (s1 & cs1 & H1 & H2 & H3).
    destruct (IHb _ _ _ _ (end_of_trans _ _ _ Hs H1) H2 H3)
      as (s2 & cs2 & H4 & H5 & H6).
    exists s2, cs2. split; [exact (end_of_trans _ _ _ H1 H4) | auto].
  - unfold Re.or_else. destruct (Re.run a ic s cs k) as [r|] eqn:E.
    + intros [= <-]. exact (IHa _ _ _ _ Hs Hcs E).
    + exact (IHb _ _ _ _ Hs Hcs).
  - apply (star_loop_cuts (Re.run a ic) g IHa (length s) k s cs res Hs Hcs).
  - intros H. destruct (IHa _ _ _ _ Hs Hcs H) as (s1 & cs1 & H1 & H2 & H3).
    eexists s1, _. split; [exact H1|]. split; [|exact H3].
    constructor; [|exact H2]. cbn [snd].
    destruct H1 as [p ->]. destruct Hs as [pre ->].
    exists pre, s1. rewrite length_app.
    replace (length p + length s1 - length s1)%nat with (length p) by lia.
    rewrite firstn_app, Nat.sub_diag, firstn_all, firstn_O, app_nil_r.
    reflexivity.
  - destruct s as [|x [|y s']]; try discriminate.
    + intros Hk. exists [], cs. split; [apply end_of_refl | auto].
    + destruct (x =? Re.newline)%char; [|discriminate].
      intros Hk. exists [x], cs. split; [apply end_of_refl | auto].
Qed.
End Cuts.

(** The groups of the leftmost match are pieces of the text. *)
Lemma search_pieces (r : Re.regex) (ic : bool) (s rest : Re.str)
    (groups : Re.caps) :
  Re.search r ic s = Some (rest, groups) ->
  Forall (fun nt => piece_of s nt.2) groups.
Proof.
  assert (Hgen : forall t, end_of s t ->
            Re.search r ic t = Some (rest, groups) ->
            Forall (fun nt => piece_of s nt.2) groups).
  { intros t. induction t as [|x t IH]; intros Ht; cbn [Re.search].
    - destruct (Re.match_here r ic []) as [m|] eqn:E; [|discriminate].
      intros [= ->]. unfold Re.match_here in E.
      destruct (run_cuts s ic r _ _ _ _ Ht (Forall_nil_2 _) E)
        as (s1 & cs1 & _ & H2 & [= _ <-]). exact H2.
    - destruct (Re.match_here r ic (x :: t)) as [m|] eqn:E.
      + intros [= ->]. unfold Re.match_here in E.
        destruct (run_cuts s ic r _ _ _ _ Ht (Forall_nil_2 _) E)
          as (s1 & cs1 & _ & H2 & [= _ <-]). exact H2.
      + apply IH. exact (end_of_trans _ _ _ Ht (end_of_cons x t)). }
  apply Hgen, end_of_refl.
Qed.

Lemma first_group_piece (pattern text : string) (g : Re.str) :
  first_group pattern text = Some g ->
  piece_of (list_ascii_of_string text) g.
Proof.
  unfold first_group.
  destruct (Re.compile pattern) as [r|]; [|discriminate].
  destruct (Re.search r true _) as [[rest groups]|] eqn:E; [|discriminate].
  pose proof (search_pieces r true _ _ _ E) as Hg. clear E.
  intros Hgr. induction Hg as [|[m t] cs Ht Hcs IH]; cbn in Hgr;
    [discriminate|].
  destruct (m =? 1)%nat; [injection Hgr as <-; exact Ht | exact (IH Hgr)].
Qed.

(** ** What a match is made of *)

Section Passes.
Variables P Q : ascii -> Prop.
Hypothesis P_Q : forall x, P x -> Q x.

Lemma star_loop_passes
    (body : Re.str -> Re.caps -> Re.cont -> option Re.result)
    (greedy : bool) :
  carries P Q body ->
  forall fuel,
    carries P Q (fun s cs k => Re.star_loop body greedy k fuel s cs).
Proof.
  intros Hbody fuel. induction fuel as [|fuel IH]; intros k s cs res Hs Hcs.
  - rewrite star_loop_O. intros Hk. exists s, cs. auto.
  - rewrite star_loop_S.
    assert (Hmore :
      body s cs (again body greedy k fuel s) = Some res ->
      exists s' cs', Forall P s' /\ caps_forall Q cs' /\ k s' cs' = Some res).
    { intros Hb. destruct (Hbody _ _ _ _ Hs Hcs Hb) as (s1 & cs1 & H1 & H2 & H3).
      unfold again in H3.
      destruct (length s1 <? length s)%nat; [|discriminate].
      exact (IH _ _ _ _ H1 H2 H3). }
    unfold Re.or_else. destruct greedy.
    + destruct (body s cs _) as [r|] eqn:E.
      * intros [= <-]. apply Hmore. reflexivity.
      * intros Hk. exists s, cs. auto.
    + destruct (k s cs) as [r|] eqn:E.
      * intros [= <-]. exists s, cs. auto.
      * exact Hmore.
Qed.

Lemma run_passes (ic : bool) (r : Re.regex) : carries P Q (Re.run r ic).
Proof.
  induction r as [ |c| |neg its|a IHa b IHb|a IHa b IHb|g a IHa|m a IHa| ];
    intros k s cs res Hs Hcs; cbn [Re.run].
  - intros Hk. exists s, cs. auto.
  - destruct s as [|x s']; [discriminate|]. inversion Hs; subst.
    destruct (Re.chr_match ic c x); [|discriminate].
    intros Hk. exists s', cs. auto.
  - destruct s as [|x s']; [discriminate|]. inversion Hs; subst.
    destruct (x =? Re.newline)%char; [discriminate|].
    intros Hk. exists s', cs. auto.
  - destruct s as [|x s']; [discriminate|]. inversion Hs; subst.
    destruct (Re.set_match ic neg its x); [|discriminate].
    intros Hk. exists s', cs. auto.
  - intros H. destruct (IHa _ _ _ _ Hs Hcs H) as (s1 & cs1 & H1 & H2 & H3).
    exact (IHb _ _ _ _ H1 H2 H3).
  - unfold Re.or_else. destruct (Re.run a ic s cs k) as [r|] eqn:E.
    + intros [= <-]. exact (IHa _ _ _ _ Hs Hcs E).
    + exact (IHb _ _ _ _ Hs Hcs).
  - apply (star_loop_passes (Re.run a ic) g IHa (length s) k s cs res Hs Hcs).
  - intros H. destruct (IHa _ _ _ _ Hs Hcs H) as (s1 & cs1 & H1 & H2 & H3).
    eexists s1, _. split; [exact H1|]. split; [|exact H3].
    constructor; [|exact H2]. cbn. apply Forall_take.
    eapply Forall_impl; [exact Hs | exact P_Q].
  - destruct s as [|x [|y s']]; try discriminate.
    + intros Hk. exists [], cs. auto.
    + destruct (x =? Re.newline)%char; [|discriminate].
      intros Hk. exists [x], cs. auto.
Qed.
End Passes.

Lemma caps_forall_nil (Q : ascii -> Prop) : caps_forall Q [].
Proof. constructor. Qed.

(** The groups of a match, and the text left after it, are made of
    characters of the text. *)
Lemma search_forall (P : ascii -> Prop) (r : Re.regex) (ic : bool)
    (s rest : Re.str) (groups : Re.caps) :
  Forall P s -> Re.search r ic s = Some (rest, groups) ->
  Forall P rest /\ caps_forall P groups.
Proof.
  assert (Hhere : forall s, Forall P s ->
            Re.match_here r ic s = Some (rest, groups) ->
            Forall P rest /\ caps_forall P groups).
  { intros s0 Hs E. unfold Re.match_here in E.
    destruct (run_passes P P (fun _ H => H) ic r _ _ _ _ Hs
                (caps_forall_nil P) E) as (s1 & cs1 & H1 & H2 & [= <- <-]).
    auto. }
  induction s as [|x s IH]; intros Hs; cbn [Re.search].
  - destruct (Re.match_here r ic []) as [m|] eqn:E; [|discriminate].
    intros [= ->]. exact (Hhere _ Hs E).
  - destruct (Re.match_here r ic (x :: s)) as [m|] eqn:E.
    + intros [= ->]. exact (Hhere _ Hs E).
    + inversion Hs; subst. apply IH. assumption.
Qed.

Lemma group_forall (P : ascii -> Prop) (cs : Re.caps) (n : nat) (g : Re.str) :
  caps_forall P cs -> Re.group cs n = Some g -> Forall P g.
Proof.
  induction 1 as [|[m t] cs Ht Hcs IH]; cbn; [discriminate|].
  destruct (m =? n)%nat; [intros [= <-]; exact Ht | exact IH].
Qed.

(** ** Patterns that need a character the text does not have *)

Lemma all_ascii_complete (x : ascii) : In x all_ascii.
Proof.
  unfold all_ascii. apply in_map_iff. exists (nat_of_ascii x).
  split; [apply ascii_nat_embedding|].
  apply in_seq. pose proof (nat_ascii_bounded x). lia.
Qed.

Lemma forallb_all_ascii (f : ascii -> bool) (x : ascii) :
  forallb f all_ascii = true -> f x = true.
Proof.
  intros H. rewrite forallb_forall in H. apply H, all_ascii_complete.
Qed.

Lemma caps_forall_true (cs : Re.caps) : caps_forall (fun _ => True) cs.
Proof.
  induction cs as [|[n t] cs IH]; constructor; [|exact IH].
  cbn. induction t; constructor; auto.
Qed.

Lemma run_requires (P : ascii -> bool) (ic : bool) (r : Re.regex) :
  requires P ic r = true ->
  forall k s cs, free_of P s -> Re.run r ic s cs k = None.
Proof.
  induction r as [ |c| |neg its|a IHa b IHb|a IHa b IHb|g a IHa|m a IHa| ];
    cbn [requires]; try discriminate; intros Hr k s cs Hs; cbn [Re.run].
  - destruct s as [|x s']; [reflexivity|].
    inversion Hs as [|? ? Hx Hs']; subst.
    apply (forallb_all_ascii _ x) in Hr. cbv beta in Hr.
    destruct (Re.chr_match ic c x) eqn:E; [|reflexivity].
    rewrite ?E, Hx in Hr. discriminate.
  - destruct s as [|x s']; [reflexivity|].
    inversion Hs as [|? ? Hx Hs']; subst.
    apply (forallb_all_ascii _ x) in Hr. cbv beta in Hr.
    destruct (x =? Re.newline)%char eqn:E; [reflexivity|].
    rewrite ?E, Hx in Hr. discriminate.
  - destruct s as [|x s']; [reflexivity|].
    inversion Hs as [|? ? Hx Hs']; subst.
    apply (forallb_all_ascii _ x) in Hr. cbv beta in Hr.
    destruct (Re.set_match ic neg its x) eqn:E; [|reflexivity].
    rewrite ?E, Hx in Hr. discriminate.
  - apply orb_prop in Hr as [Ha | Hb]; [apply (IHa Ha), Hs|].
    destruct (Re.run a ic s cs _) as [res|] eqn:E; [|reflexivity].
    destruct (run_passes (fun x => P x = false) (fun _ => True)
                (fun _ _ => I) ic a _ _ _ _ Hs (caps_forall_true cs) E)
      as (s1 & cs1 & H1 & _ & H3).
    rewrite (IHb Hb _ _ _ H1) in H3. discriminate.
  - apply andb_prop in Hr as [Ha Hb].
    unfold Re.or_else. rewrite (IHa Ha _ _ _ Hs). apply (IHb Hb), Hs.
  - apply (IHa Hr), Hs.
Qed.

Lemma search_requires (P : ascii -> bool) (ic : bool) (r : Re.regex)
    (s : Re.str) :
  requires P ic r = true -> free_of P s -> Re.search r ic s = None.
Proof.
  intros Hr. induction s as [|x s IH]; intros Hs; cbn [Re.search];
    unfold Re.match_here; rewrite (run_requires P ic r Hr _ _ _ Hs);
    [reflexivity|].
  inversion Hs; subst. apply IH. assumption.
Qed.

Lemma count_matches_requires (P : ascii -> bool) (ic : bool) (r : Re.regex)
    (n : nat) :
  requires P ic r = true ->
  forall s, free_of P s -> Re.count_matches r ic n s = O.
Proof.
  intros Hr. induction n as [|n IH]; intros s Hs; cbn [Re.count_matches];
    [reflexivity|].
  unfold Re.match_here. rewrite (run_requires P ic r Hr _ _ _ Hs).
  destruct s as [|x s]; [reflexivity|].
  inversion Hs; subst. apply IH. assumption.
Qed.

(** ** Stripping *)

Lemma lstrip_split (p : ascii -> bool) (s : Re.str) :
  exists pre, s = pre ++ Re.lstrip p s.
Proof.
  induction s as [|c s [pre IH]]; [exists []; reflexivity|].
  cbn [Re.lstrip]. destruct (p c).
  - exists (c :: pre). cbn. f_equal. exact IH.
  - exists []. reflexivity.
Qed.

Lemma lstrip_head (p : ascii -> bool) (s : Re.str) (x : ascii) (t : Re.str) :
  Re.lstrip p s = x :: t -> p x = false.
Proof.
  induction s as [|c s IH]; cbn [Re.lstrip]; [discriminate|].
  destruct (p c) eqn:E; [exact IH|]. intros [= <- _]. exact E.
Qed.

Lemma strip_with_trimmed (p : ascii -> bool) (s : Re.str) :
  trimmed p (Re.strip_with p s).
Proof.
  unfold Re.strip_with.
  set (u := Re.lstrip p s). set (w := Re.lstrip p (rev u)).
  destruct (lstrip_split p (rev u)) as [pre Hpre]. fold w in Hpre.
  split; intros x t Hx.
  - assert (Hw : w = rev t ++ [x]).
    { rewrite <- (rev_involutive w), Hx. reflexivity. }
    assert (Hu : u = x :: t ++ rev pre).
    { rewrite <- (rev_involutive u), Hpre, Hw.
      rewrite !rev_app_distr, rev_involutive. reflexivity. }
    exact (lstrip_head p s x _ Hu).
  - assert (Hw : w = x :: rev t).
    { rewrite <- (rev_involutive w), Hx, rev_app_distr. reflexivity. }
    exact (lstrip_head p (rev u) x _ Hw).
Qed.

Lemma lstrip_forall (P : ascii -> Prop) (p : ascii -> bool) (s : Re.str) :
  Forall P s -> Forall P (Re.lstrip p s).
Proof.
  induction 1 as [|c s Hc Hs IH]; cbn [Re.lstrip]; [constructor|].
  destruct (p c); [exact IH | constructor; assumption].
Qed.

Lemma strip_with_forall (P : ascii -> Prop) (p : ascii -> bool) (s : Re.str) :
  Forall P s -> Forall P (Re.strip_with p s).
Proof.
  intros H. unfold Re.strip_with.
  apply Forall_rev, lstrip_forall, Forall_rev, lstrip_forall, H.
Qed.

(** What [strip] returns is a piece of the text. *)
Lemma strip_with_infix (p : ascii -> bool) (s : Re.str) :
  exists pre post, s = pre ++ Re.strip_with p s ++ post.
Proof.
  unfold Re.strip_with.
  destruct (lstrip_split p s) as [pre1 H1].
  destruct (lstrip_split p (rev (Re.lstrip p s))) as [pre2 H2].
  exists pre1, (rev pre2). rewrite <- rev_app_distr, <- H2, rev_involutive.
  exact H1.
Qed.

(** ** The shape of a slug *)

Lemma collapse_runs_chars (in_run : bool) (s : Re.str) :
  lowered s ->
  Forall (fun c => slug_char c = true) (collapse_runs in_run s).
Proof.
  intros Hs. revert in_run.
  induction Hs as [|c s Hc Hs IH]; intros in_run; cbn [collapse_runs];
    [constructor|].
  destruct (Re.is_alnum c) eqn:E.
  - constructor; [|apply IH]. unfold slug_char.
    unfold Re.is_alnum in E. rewrite Hc in E. cbn in E. rewrite E. reflexivity.
  - destruct in_run; [apply IH|]. constructor; [reflexivity | apply IH].
Qed.

Lemma dash_not_alnum : Re.is_alnum "-" = false.
Proof. reflexivity. Qed.

(** After a run has begun no separator comes next, and nowhere do two
    separators meet. *)
Lemma collapse_runs_no_pair (s : Re.str) :
  (forall t, collapse_runs true s <> "-"%char :: t) /\
  (forall in_run a b,
     collapse_runs in_run s <> a ++ "-"%char :: "-"%char :: b).
Proof.
  induction s as [|c s [IH1 IH2]]; cbn [collapse_runs].
  - split; [discriminate|]. intros _ [|x a] b; discriminate.
  - destruct (Re.is_alnum c) eqn:E.
    + assert (Hc : c <> "-"%char).
      { intros ->. rewrite dash_not_alnum in E. discriminate. }
      split; [intros t [= H _]; contradiction|].
      intros _ [|x a] b; cbn.
      * intros [= H _]. contradiction.
      * intros [= _ H]. exact (IH2 false a b H).
    + split; [exact IH1|]. intros [|] a b; [apply IH2|].
      destruct a as [|x a]; cbn.
      * intros [= H]. exact (IH1 _ H).
      * intros [= _ H]. exact (IH2 true a b H).
Qed.

Lemma spec_slugify_shape (title : Re.str) :
  slug_shape (list_ascii_of_string (spec_slugify title)).
Proof.
  unfold spec_slugify, Re.strip_chars.
  rewrite list_ascii_of_string_of_list_ascii.
  set (p := fun c => existsb (Ascii.eqb c) ["-"%char]).
  set (u := collapse_runs false (Re.str_lower title)).
  split; [|split].
  - apply strip_with_forall, collapse_runs_chars, lowered_str_lower.
  - destruct (strip_with_trimmed p u) as [H1 H2].
    split; intros x t Hx; [specialize (H1 x t Hx) | specialize (H2 x t Hx)];
      unfold p in *; cbn in *; unfold is_dash;
      rewrite orb_false_r in *; assumption.
  - intros a b Hab.
    destruct (strip_with_infix p u) as (pre & post & Hu).
    rewrite Hab in Hu.
    apply (proj2 (collapse_runs_no_pair (Re.str_lower title)) false
             (pre ++ a) (b ++ post)).
    fold u. rewrite Hu, <- !app_assoc. reflexivity.
Qed.

Lemma feature_is_slug : slug_shape (list_ascii_of_string "feature").
Proof.
  split; [|split].
  - repeat constructor.
  - split; intros x t H.
    + injection H as <- _. reflexivity.
    + change (list_ascii_of_string "feature")
        with (["f"; "e"; "a"; "t"; "u"; "r"] ++ ["e"])%char in H.
      apply app_inj_tail in H as [_ <-]. reflexivity.
  - intros a b H. cbn in H.
    repeat (destruct a as [|? a]; [discriminate|]; injection H as _ H).
    destruct a; discriminate.
Qed.

(** X1. For every PRD text the feature name is a well-shaped slug:
    only a-z, 0-9 and "-", no "-" at either end, no "--". *)
Theorem feature_name_slug_shape (prd : string) (arch : option string) :
  exists name : string,
    extract_feature_name (ComplexityAnalyzer_init prd arch) = Some name /\
    slug_shape (list_ascii_of_string name).
Proof.
  eexists. split.
  - unfold extract_feature_name. rewrite content_init.
    apply feature_name_loop_spec.
  - unfold spec_feature_name.
    repeat (destruct (first_group _ _); [apply spec_slugify_shape|]).
    apply feature_is_slug.
Qed.

(** ** Names cut out of the text *)

Lemma first_group_forall (P : ascii -> Prop) (pattern text : string)
    (g : Re.str) :
  Forall P (list_ascii_of_string text) ->
  first_group pattern text = Some g -> Forall P g.
Proof.
  intros Ht. unfold first_group.
  destruct (Re.compile pattern) as [r|]; [|discriminate].
  destruct (Re.search r true _) as [[rest groups]|] eqn:E; [|discriminate].
  destruct (search_forall P r true _ _ _ Ht E) as [_ Hg].
  apply group_forall, Hg.
Qed.

Lemma list_ascii_str_lower (s : string) :
  list_ascii_of_string (str_lower s) = Re.str_lower (list_ascii_of_string s).
Proof. unfold str_lower. apply list_ascii_of_string_of_list_ascii. Qed.

Lemma project_name_cases_spec (text : string) :
  project_name_cases text = "Project"%string \/
  exists (p : string) (g : Re.str),
    first_group p text = Some g /\
    project_name_cases text = string_of_list_ascii (Re.strip g).
Proof.
  unfold project_name_cases.
  destruct (first_group "project:\s*(.+?)(?:\n|$)" text) as [g|] eqn:E1.
  { right. eexists _, g. split; [exact E1 | reflexivity]. }
  clear E1. destruct (first_group _ text) as [g|] eqn:E2.
  { right. eexists _, g. split; [exact E2 | reflexivity]. }
  left. reflexivity.
Qed.

(** X2. The project name is the fallback, or a piece of the lower-cased
    PRD text: some consecutive characters of it, hence without any
    capital A-Z whatever the capitals of the PRD, and it has no white
    space at either end. *)
Theorem project_name_from_lowered_text (prd : string) (arch : option string) :
  exists name : string,
    extract_project_name (ComplexityAnalyzer_init prd arch) = Some name /\
    (name = "Project"%string \/
     (piece_of (Re.str_lower (list_ascii_of_string prd))
        (list_ascii_of_string name) /\
      lowered (list_ascii_of_string name) /\
      trimmed Re.is_space (list_ascii_of_string name))).
Proof.
  eexists. split.
  - unfold extract_project_name. rewrite content_init.
    apply project_name_loop_spec.
  - assert (Hlow : lowered (list_ascii_of_string (str_lower prd))).
    { rewrite list_ascii_str_lower. apply lowered_str_lower. }
    destruct (project_name_cases_spec (str_lower prd))
      as [-> | (p & g & E & ->)]; [left; reflexivity|].
    right. rewrite list_ascii_of_string_of_list_ascii.
    unfold Re.strip. split; [|split].
    + rewrite <- list_ascii_str_lower.
      apply (piece_of_trans _ g); [exact (first_group_piece _ _ _ E)|].
      destruct (strip_with_infix Re.is_space g) as (a & b & H).
      exists a, b. exact H.
    + apply strip_with_forall. eapply first_group_forall; eauto.
    + apply strip_with_trimmed.
Qed.

(** ** Texts that no pattern can match *)

Lemma first_group_requires (P : ascii -> bool) (pattern text : string) :
  pattern_requires P pattern = true ->
  free_of P (list_ascii_of_string text) ->
  first_group pattern text = None.
Proof.
  unfold pattern_requires, first_group.
  destruct (Re.compile pattern) as [r|]; [|discriminate].
  intros Hr Ht. rewrite (search_requires P true r _ Hr Ht). reflexivity.
Qed.

(** Lower-casing neither makes nor removes a character of a class that
    has no letter whose case changes. *)
Lemma free_of_str_lower (P : ascii -> bool) (s : string) :
  forallb (fun x => Bool.eqb (P (Re.lower x)) (P x)) all_ascii = true ->
  free_of P (list_ascii_of_string s) ->
  free_of P (list_ascii_of_string (str_lower s)).
Proof.
  intros HP Hs. rewrite list_ascii_str_lower. unfold Re.str_lower, free_of.
  induction Hs as [|x l Hx Hl IH]; cbn [map]; constructor; [|exact IH].
  apply (forallb_all_ascii _ x) in HP. cbv beta in HP.
  apply Bool.eqb_prop in HP. congruence.
Qed.

(** X3. A PRD text with no heading mark [#] and no colon has no title: the
    feature name is the fallback. *)
Theorem feature_name_fallback (prd : string) (arch : option string) :
  free_of hash_or_colon (list_ascii_of_string prd) ->
  extract_feature_name (ComplexityAnalyzer_init prd arch)
  = Some "feature"%string.
Proof.
  intros Hfree. unfold extract_feature_name. rewrite content_init.
  rewrite feature_name_loop_spec. unfold spec_feature_name.
  assert (Hlow : free_of hash_or_colon (list_ascii_of_string (str_lower prd))).
  { apply free_of_str_lower; [vm_compute; reflexivity | exact Hfree]. }
  rewrite !(fun p H => first_group_requires hash_or_colon p _ H Hlow)
    by (vm_compute; reflexivity).
  reflexivity.
Qed.

Lemma feature_name_fallback_witness :
  free_of hash_or_colon (list_ascii_of_string "Users must be able to log in.") /\
  extract_feature_name
    (ComplexityAnalyzer_init "Users must be able to log in." None)
  = Some "feature"%string.
Proof.
  assert (H : free_of hash_or_colon
                (list_ascii_of_string "Users must be able to log in.")).
  { repeat constructor. }
  split; [exact H|].
  exact (feature_name_fallback "Users must be able to log in." None H).
Defined.

(** ** Texts without letters *)

Lemma list_ascii_append (a b : string) :
  list_ascii_of_string (a ++ b)%string
  = list_ascii_of_string a ++ list_ascii_of_string b.
Proof.
  induction a as [|c a IH]; [reflexivity|].
  change (String c a ++ b)%string with (String c (a ++ b)%string).
  cbn [list_ascii_of_string]. rewrite IH. reflexivity.
Qed.

Lemma raw_count_requires (P : ascii -> bool) (patterns : list string)
    (text : string) :
  forallb (pattern_requires P) patterns = true ->
  free_of P (list_ascii_of_string text) ->
  raw_count patterns text = 0.
Proof.
  intros Hp Ht. unfold raw_count.
  induction patterns as [|p ps IH]; cbn [map foldr]; [reflexivity|].
  cbn [forallb] in Hp. apply andb_prop in Hp as [Hp Hps].
  rewrite (IH Hps). unfold pattern_requires in Hp. unfold Re.findall_len.
  destruct (Re.compile p) as [r|]; [|discriminate].
  cbn [mbind option_bind default]. unfold Re.findall_count, id.
  rewrite (count_matches_requires P true r _ Hp _ Ht). reflexivity.
Qed.

Lemma PATTERNS_need_letters :
  forallb (fun it => forallb (pattern_requires is_letter) it.2) PATTERNS = true.
Proof. vm_compute. reflexivity. Qed.

Lemma is_letter_of_code (c : N) :
  (c < 256)%N -> is_letter (ascii_of_N c) = letter_code c.
Proof.
  intros Hc. unfold is_letter, letter_code, Re.is_upper, Re.is_lower,
    Re.between, Re.code.
  rewrite (N_ascii_embedding c Hc). reflexivity.
Qed.

Lemma free_of_code_points (t : code_points) :
  latin1 t -> Forall (fun c => letter_code c = false) t ->
  free_of is_letter (list_ascii_of_string (of_code_points t)).
Proof.
  unfold of_code_points. rewrite list_ascii_of_string_of_list_ascii.
  intros Hl. induction Hl as [|c t Hc Hl IH]; intros Hf; [constructor|].
  inversion Hf as [|? ? Hx Hr]; subst. cbn [map].
  constructor; [|exact (IH Hr)].
  rewrite (is_letter_of_code c Hc). exact Hx.
Qed.

(** X4. A PRD and an architecture text whose code points are all below
    256 and none of them a letter A-Z or a-z (digits, punctuation, white
    space, accented letters of Latin-1) match no pattern at all: all
    eight counts are 0, hence the score 0.0 and the category "simple".
    Beyond 256 this fails: with [re.IGNORECASE] the long s (U+017F)
    matches [s] and the Kelvin sign (U+212A) matches [k]. *)
Theorem letter_free_text_counts_nothing (prd : code_points)
    (arch : option code_points) :
  latin1 prd -> latin1 (default [] arch) ->
  Forall (fun c => letter_code c = false) prd ->
  Forall (fun c => letter_code c = false) (default [] arch) ->
  analyze (ComplexityAnalyzer_init (of_code_points prd)
             (of_code_points <$> arch))
  = Some ComplexityFactors_new /\
  calculate_score ComplexityFactors_new = Some (S754_zero false) /\
  get_category ComplexityFactors_new = Some "simple"%string.
Proof.
  intros Hlp Hla Hfp Hfa. split; [|split; vm_compute; reflexivity].
  pose proof (free_of_code_points prd Hlp Hfp) as Hp.
  assert (Ha : free_of is_letter
                 (list_ascii_of_string
                    (default ""%string (of_code_points <$> arch)))).
  { destruct arch as [t|]; [|constructor].
    exact (free_of_code_points t Hla Hfa). }
  assert (Hc : free_of is_letter
                 (list_ascii_of_string
                    (combined_content
                       (ComplexityAnalyzer_init (of_code_points prd)
                          (of_code_points <$> arch))))).
  { cbn [combined_content ComplexityAnalyzer_init].
    rewrite list_ascii_append. apply Forall_app. split.
    - apply free_of_str_lower; [vm_compute; reflexivity | exact Hp].
    - cbn [list_ascii_of_string]. constructor; [reflexivity|].
      apply free_of_str_lower; [vm_compute; reflexivity | exact Ha]. }
  unfold analyze. rewrite (analyze_loop_fold _ _ PATTERNS_compile).
  pose proof PATTERNS_need_letters as Hn. revert Hn.
  unfold PATTERNS.
  rewrite (fold_setattr_table (capped _)).
  cbn [forallb snd]. intros Hn.
  repeat (apply andb_prop in Hn as [?H Hn]).
  unfold capped, ComplexityFactors_new.
  rewrite !(raw_count_requires is_letter) by assumption.
  reflexivity.
Qed.

(** The texts ["2 + 2 = 4 (100%)"] and ["---"]. *)
Lemma letter_free_text_counts_nothing_witness :
  analyze
    (ComplexityAnalyzer_init
       (of_code_points
          [50; 32; 43; 32; 50; 32; 61; 32; 52; 32; 40; 49; 48; 48; 37; 41]%N)
       (of_code_points <$> Some [45; 45; 45]%N))
  = Some ComplexityFactors_new.
Proof.
  refine (proj1 (letter_free_text_counts_nothing
                   [50; 32; 43; 32; 50; 32; 61; 32; 52; 32; 40; 49; 48; 48;
                    37; 41]%N
                   (Some [45; 45; 45]%N) _ _ _ _));
    repeat constructor.
Defined.

(** ** Escalation *)

Lemma band_of_tenths_mono (h k : Z) :
  h <= k ->
  (category_rank (band_of_tenths h) <= category_rank (band_of_tenths k))%nat /\
  (ranges_get (band_of_tenths h)).1 <= (ranges_get (band_of_tenths k)).1 /\
  (ranges_get (band_of_tenths h)).2 <= (ranges_get (band_of_tenths k)).2.
Proof.
  intros Hhk. unfold band_of_tenths.
  destruct (Z.leb_spec h 50), (Z.leb_spec k 50); try lia;
    destruct (Z.leb_spec h 150), (Z.leb_spec k 150); try lia;
    destruct (Z.leb_spec h 300), (Z.leb_spec k 300); try lia;
    vm_compute; repeat split; try discriminate; lia.
Qed.

(** X5. Raising counts never lowers the estimate: when no count of [g] is
    below that of [f], the category of [g] is the same or a later one,
    and both bounds of its story range and of its iteration range are at
    least those of [f]. *)
Theorem estimate_monotone (f g : ComplexityFactors) :
  in_range f -> in_range g ->
  (forall k : factor, count k f <= count k g) ->
  exists (c d : string) (sf sg itf itg : Z * Z),
    get_category f = Some c /\ get_category g = Some d /\
    (category_rank c <= category_rank d)%nat /\
    get_story_count_range f = Some sf /\ get_story_count_range g = Some sg /\
    sf.1 <= sg.1 /\ sf.2 <= sg.2 /\
    get_iteration_estimate f = Some itf /\ get_iteration_estimate g = Some itg /\
    itf.1 <= itg.1 /\ itf.2 <= itg.2.
Proof.
  intros Hf Hg Hle.
  assert (Ht : tenths f <= tenths g).
  { pose proof (Hle Functional_requirements). pose proof (Hle Integration_points).
    pose proof (Hle Ui_components). pose proof (Hle Database_changes).
    pose proof (Hle External_apis). pose proof (Hle Authentication_features).
    pose proof (Hle File_operations). pose proof (Hle Real_time_features).
    unfold tenths. cbn [count] in *. lia. }
  pose proof (get_category_in_range f Hf) as Hcf.
  pose proof (get_category_in_range g Hg) as Hcg.
  destruct (band_of_tenths_mono _ _ Ht) as (Hr & H1 & H2).
  assert (H4f : four_categories (band_of_tenths (tenths f))).
  { destruct (get_category_any f _ Hcf) as [H _]. exact H. }
  assert (H4g : four_categories (band_of_tenths (tenths g))).
  { destruct (get_category_any g _ Hcg) as [H _]. exact H. }
  destruct (get_category_any f _ Hcf) as (_ & _ & Hsf).
  destruct (get_category_any g _ Hcg) as (_ & _ & Hsg).
  destruct (iteration_of_row _ H4f) as (Hif & _ & _).
  destruct (iteration_of_row _ H4g) as (Hig & _ & _).
  exists (band_of_tenths (tenths f)), (band_of_tenths (tenths g)).
  exists (ranges_get (band_of_tenths (tenths f))),
         (ranges_get (band_of_tenths (tenths g))).
  eexists _, _.
  repeat (split; [eassumption|]).
  split; [unfold get_iteration_estimate; rewrite Hsf; exact Hif|].
  split; [unfold get_iteration_estimate; rewrite Hsg; exact Hig|].
  cbn [fst snd]. split; [exact H1|].
  unfold spec_iteration_high.
  apply Qfloor_resp_le. unfold Qle; cbn. lia.
Qed.

Lemma estimate_monotone_witness :
  exists (c d : string) (sf sg itf itg : Z * Z),
    get_category (mkFactors 1 1 1 1 1 1 1 1) = Some c /\
    get_category (mkFactors 9 9 9 9 9 9 9 9) = Some d /\
    (category_rank c <= category_rank d)%nat /\
    get_story_count_range (mkFactors 1 1 1 1 1 1 1 1) = Some sf /\
    get_story_count_range (mkFactors 9 9 9 9 9 9 9 9) = Some sg /\
    sf.1 <= sg.1 /\ sf.2 <= sg.2 /\
    get_iteration_estimate (mkFactors 1 1 1 1 1 1 1 1) = Some itf /\
    get_iteration_estimate (mkFactors 9 9 9 9 9 9 9 9) = Some itg /\
    itf.1 <= itg.1 /\ itf.2 <= itg.2.
Proof.
  apply (estimate_monotone (mkFactors 1 1 1 1 1 1 1 1)
           (mkFactors 9 9 9 9 9 9 9 9)).
  - unfold in_range; cbn; lia.
  - unfold in_range; cbn; lia.
  - intros k; destruct k; cbn; lia.
Defined.

(** ** The record and the report *)

(** Rounding to one decimal and printing with one decimal, on the scores
    of the data model: the score is [h / 10] up to the last bit, so
    [round] gives it back and [.1f] prints the exact [h / 10]. *)
Lemma round1_score_of_tenths (h : Z) :
  0 <= h <= 800 -> round1 (score_of_tenths h) = Some (score_of_tenths h).
Proof.
  intros Hh.
  assert (H : option_float_eqb (round1 (score_of_tenths h))
                (score_of_tenths h) = true).
  { apply (check_upto
             (fun h => option_float_eqb (round1 (score_of_tenths h))
                         (score_of_tenths h)) 801);
      [vm_cast_no_check (eq_refl true) | lia]. }
  destruct (round1 (score_of_tenths h)) as [x|]; [|discriminate].
  apply float_eqb_eq in H. congruence.
Qed.

Lemma format_1f_score_of_tenths (h : Z) :
  0 <= h <= 800 ->
  format_1f (score_of_tenths h)
  = (str_of_int (h / 10) ++ "." ++ str_of_int (h mod 10))%string.
Proof.
  intros Hh. apply String.eqb_eq.
  apply (check_upto
           (fun h => String.eqb (format_1f (score_of_tenths h))
                       (str_of_int (h / 10) ++ "." ++ str_of_int (h mod 10)))
           801); [vm_cast_no_check (eq_refl true) | lia].
Qed.

(** Everything that [generate_prd_json] and [main] compute from the two
    texts, none of it failing. *)
Lemma analysis_parts (prd : string) (arch : option string) :
  exists (f : ComplexityFactors) (c : string) (st it : Z * Z)
         (feature project : string),
    in_range f /\
    analyze (ComplexityAnalyzer_init prd arch) = Some f /\
    calculate_score f = Some (score_of_tenths (tenths f)) /\
    get_category f = Some c /\ four_categories c /\
    get_story_count_range f = Some st /\
    get_iteration_estimate f = Some it /\
    extract_feature_name (ComplexityAnalyzer_init prd arch) = Some feature /\
    slug_shape (list_ascii_of_string feature) /\
    extract_project_name (ComplexityAnalyzer_init prd arch) = Some project.
Proof.
  destruct (analyze_capped (ComplexityAnalyzer_init prd arch))
    as (f & Hf & Hr & _).
  destruct (get_category_four f Hr) as (c & Hc & H4).
  destruct (get_category_any f c Hc) as (_ & _ & Hst).
  destruct (iteration_of_row c H4) as (Hit & _ & _).
  exists f, c, (ranges_get c). eexists _, _, _.
  split; [exact Hr|]. split; [exact Hf|].
  split; [apply calculate_score_in_range, Hr|].
  split; [exact Hc|]. split; [exact H4|]. split; [exact Hst|].
  split; [unfold get_iteration_estimate; rewrite Hst; exact Hit|].
  split; [unfold extract_feature_name; rewrite content_init;
          apply feature_name_loop_spec|].
  split.
  - unfold spec_feature_name.
    repeat (destruct (first_group _ _); [apply spec_slugify_shape|]).
    apply feature_is_slug.
  - unfold extract_project_name. rewrite content_init.
    apply project_name_loop_spec.
Qed.

(** X6. [generate_prd_json] never fails, whatever the texts, the output
    path and the time: it returns the record below, built from the
    results of the analysis.  Its score is the score itself: rounding to
    one decimal does not change it.  The list of user stories is
    empty. *)
Theorem generate_prd_json_record (prd : string) (arch : option string)
    (output_path now : string) :
  exists (f : ComplexityFactors) (s : Py.float) (c : string) (st it : Z * Z)
         (feature project : string),
    analyze (ComplexityAnalyzer_init prd arch) = Some f /\
    calculate_score f = Some s /\
    get_category f = Some c /\
    get_story_count_range f = Some st /\
    get_iteration_estimate f = Some it /\
    extract_feature_name (ComplexityAnalyzer_init prd arch) = Some feature /\
    extract_project_name (ComplexityAnalyzer_init prd arch) = Some project /\
    generate_prd_json prd arch output_path now
    = Some (JDict [
        ("project", JStr project);
        ("branchName", JStr ("ralph/" ++ feature));
        ("description", JStr (title_of_slug feature ++ " Feature"));
        ("complexity", JDict [
           ("score", JFloat s);
           ("category", JStr c);
           ("estimated_stories", JStr (format_range st));
           ("estimated_iterations", JStr (format_range it));
           ("factors", JDict [
              ("functional_requirements", JInt (functional_requirements f));
              ("integration_points", JInt (integration_points f));
              ("ui_components", JInt (ui_components f));
              ("database_changes", JInt (database_changes f));
              ("external_apis", JInt (external_apis f));
              ("authentication_features", JInt (authentication_features f));
              ("file_operations", JInt (file_operations f));
              ("real_time_features", JInt (real_time_features f)) ]) ]);
        ("userStories", JList []);
        ("_generated", JDict [
           ("timestamp", JStr now);
           ("note", JStr "Stories need to be populated based on PRD analysis") ])
      ]%string).
Proof.
  destruct (analysis_parts prd arch)
    as (f & c & st & it & feature & project
        & Hr & Hf & Hs & Hc & _ & Hst & Hit & Hfe & _ & Hpr).
  exists f, (score_of_tenths (tenths f)), c, st, it, feature, project.
  repeat (split; [assumption|]).
  unfold generate_prd_json. cbv zeta.
  rewrite Hf. cbn [mbind option_bind].
  rewrite Hs. cbn [mbind option_bind].
  rewrite Hc. cbn [mbind option_bind].
  rewrite Hst. cbn [mbind option_bind].
  rewrite Hit. cbn [mbind option_bind].
  rewrite Hfe. cbn [mbind option_bind].
  rewrite Hpr. cbn [mbind option_bind].
  rewrite (round1_score_of_tenths _ (tenths_bounds f Hr)).
  reflexivity.
Qed.

(** A slug character survives the way to the description and back: the
    separator becomes a space and a space becomes the separator again;
    [title] changes at most the case of a letter, and the slug has lower
    case only. *)
Lemma slug_char_back (c : ascii) (b : bool) :
  slug_char c = true ->
  replace_char " " "-"
    (Re.str_lower (title_from b (replace_char "-" " " [c]))) = [c].
Proof.
  intros Hc.
  assert (H : implb (slug_char c)
                (forallb
                   (fun b =>
                      Ascii.eqb
                        (hd c (replace_char " " "-"
                                 (Re.str_lower
                                    (title_from b (replace_char "-" " " [c])))))
                        c)
                   [true; false]) = true).
  { apply (forallb_all_ascii
             (fun c =>
                implb (slug_char c)
                  (forallb
                     (fun b =>
                        Ascii.eqb
                          (hd c (replace_char " " "-"
                                   (Re.str_lower
                                      (title_from b
                                         (replace_char "-" " " [c])))))
                          c)
                     [true; false]))).
    vm_compute; reflexivity. }
  rewrite Hc in H. cbn [implb forallb] in H.
  apply andb_prop in H as [H1 H2]. apply andb_prop in H2 as [H2 _].
  cbn [replace_char Re.str_lower title_from map hd] in *.
  f_equal. apply Ascii.eqb_eq. destruct b; assumption.
Qed.

Lemma title_from_back (s : Re.str) (b : bool) :
  Forall (fun c => slug_char c = true) s ->
  replace_char " " "-" (Re.str_lower (title_from b (replace_char "-" " " s)))
  = s.
Proof.
  intros Hs. revert b.
  induction Hs as [|c s Hc Hs IH]; intros b; [reflexivity|].
  pose proof (slug_char_back c b Hc) as H1.
  unfold replace_char, Re.str_lower in *. cbn [map title_from] in *.
  injection H1 as H1. f_equal; [exact H1 | apply IH].
Qed.

(** X7. The description of the record gives back the feature name: it is
    the feature name's words, capitalised, followed by [" Feature"];
    lower-casing the words and joining them with the separator again is
    the feature name that the branch name carries. *)
Theorem description_gives_back_feature_name (prd : string)
    (arch : option string) (output_path now : string) :
  exists (record : json) (feature words : string),
    generate_prd_json prd arch output_path now = Some record /\
    json_get record "branchName" = Some (JStr ("ralph/" ++ feature)) /\
    json_get record "description" = Some (JStr (words ++ " Feature")) /\
    string_of_list_ascii
      (replace_char " " "-" (Re.str_lower (list_ascii_of_string words)))
    = feature.
Proof.
  destruct (analysis_parts prd arch)
    as (f & c & st & it & feature & project
        & Hr & Hf & Hs & Hc & _ & Hst & Hit & Hfe & Hsh & Hpr).
  eexists _, feature, (title_of_slug feature).
  split.
  - unfold generate_prd_json. cbv zeta.
    rewrite Hf. cbn [mbind option_bind].
    rewrite Hs. cbn [mbind option_bind].
    rewrite Hc. cbn [mbind option_bind].
    rewrite Hst. cbn [mbind option_bind].
    rewrite Hit. cbn [mbind option_bind].
    rewrite Hfe. cbn [mbind option_bind].
    rewrite Hpr. cbn [mbind option_bind].
    rewrite (round1_score_of_tenths _ (tenths_bounds f Hr)).
    cbn [mbind option_bind]. reflexivity.
  - split; [reflexivity|]. split; [reflexivity|].
    unfold title_of_slug, str_title.
    rewrite list_ascii_of_string_of_list_ascii.
    rewrite (title_from_back _ false (proj1 Hsh)).
    apply string_of_list_ascii_of_string.
Qed.


(** X9. For counts between 0 and 20 [print_analysis] prints seventeen
    items, and its score line is exact: the score of the specification
    has one decimal digit, and the line shows its whole part and that
    digit. *)
Theorem print_analysis_score_line (f : ComplexityFactors) :
  in_range f ->
  exists (lines : list string) (whole digit : Z),
    print_analysis f = Some lines /\
    length lines = 17%nat /\
    0 <= digit <= 9 /\
    (spec_score f == inject_Z whole + (digit # 10))%Q /\
    nth_error lines 3
    = Some (nl ++ "  Complexity Score: "
            ++ str_of_int whole ++ "." ++ str_of_int digit)%string.
Proof.
  intros Hr.
  destruct (get_category_four f Hr) as (c & Hc & H4).
  destruct (get_category_any f c Hc) as (_ & _ & Hst).
  destruct (iteration_of_row c H4) as (Hit & _ & _).
  pose proof (tenths_bounds f Hr) as Hb.
  eexists _, (tenths f / 10), (tenths f mod 10).
  split.
  - unfold print_analysis.
    rewrite (calculate_score_in_range f Hr). cbn [mbind option_bind].
    rewrite Hc. cbn [mbind option_bind].
    rewrite Hst. cbn [mbind option_bind].
    unfold get_iteration_estimate. rewrite Hst. cbn [mbind option_bind].
    rewrite Hit. cbn [mbind option_bind]. reflexivity.
  - split; [reflexivity|].
    split; [pose proof (Z.mod_pos_bound (tenths f) 10); lia|].
    split.
    + rewrite spec_score_tenths.
      unfold Qeq, Qplus, inject_Z. cbn [Qnum Qden].
      pose proof (Z.div_mod (tenths f) 10). lia.
    + cbn [nth_error]. do 2 f_equal.
      change (Py.fdiv (halves (tenths f)) (halves 10))
        with (score_of_tenths (tenths f)).
      rewrite (format_1f_score_of_tenths _ Hb). reflexivity.
Qed.

Lemma print_analysis_score_line_witness :
  exists (lines : list string) (whole digit : Z),
    print_analysis (mkFactors 1 2 3 4 5 6 7 8) = Some lines /\
    length lines = 17%nat /\
    0 <= digit <= 9 /\
    (spec_score (mkFactors 1 2 3 4 5 6 7 8)
     == inject_Z whole + (digit # 10))%Q /\
    nth_error lines 3
    = Some (nl ++ "  Complexity Score: "
            ++ str_of_int whole ++ "." ++ str_of_int digit)%string.
Proof.
  apply (print_analysis_score_line (mkFactors 1 2 3 4 5 6 7 8)).
  unfold in_range; cbn; lia.
Defined.

(** ** The command line program *)

Section MainProps.
Variable fs : Type.
Variable parse_args : list string -> parsed.
Variable path_str : string -> string.
Variable path_exists : fs -> string -> bool.
Variable read_text : fs -> string -> option string.
Variable write_text : fs -> string -> string -> fs * bool.
Variable json_dumps : json -> string.
Variable now : string.

Local Abbreviation main_analyze' :=
  (main_analyze fs path_str write_text json_dumps now).
Local Abbreviation main' :=
  (main fs parse_args path_str path_exists read_text write_text json_dumps now).

(** The report of [main] is always there, with its seventeen items. *)
Lemma report_total (prd : string) (arch : option string) :
  exists (f : ComplexityFactors) (report : list string),
    analyze (ComplexityAnalyzer_init prd arch) = Some f /\
    print_analysis f = Some report /\ length report = 17%nat.
Proof.
  destruct (analysis_parts prd arch)
    as (f & c & st & it & feature & project
        & Hr & Hf & Hs & Hc & _ & Hst & Hit & _).
  exists f. eexists. split; [exact Hf|].
  unfold print_analysis.
  rewrite Hs. cbn [mbind option_bind].
  rewrite Hc. cbn [mbind option_bind].
  rewrite Hst. cbn [mbind option_bind].
  rewrite Hit. cbn [mbind option_bind].
  split; reflexivity.
Qed.

Lemma record_total (prd : string) (arch : option string)
    (output_path : string) :
  is_Some (generate_prd_json prd arch output_path now).
Proof.
  destruct (analysis_parts prd arch)
    as (f & c & st & it & feature & project
        & Hr & Hf & Hs & Hc & _ & Hst & Hit & Hfe & _ & Hpr).
  unfold generate_prd_json. cbv zeta.
  rewrite Hf. cbn [mbind option_bind].
  rewrite Hs. cbn [mbind option_bind].
  rewrite Hc. cbn [mbind option_bind].
  rewrite Hst. cbn [mbind option_bind].
  rewrite Hit. cbn [mbind option_bind].
  rewrite Hfe. cbn [mbind option_bind].
  rewrite Hpr. cbn [mbind option_bind].
  rewrite (round1_score_of_tenths _ (tenths_bounds f Hr)).
  cbn [mbind option_bind]. eexists; reflexivity.
Qed.

(** The second half of [main], by cases: the report is printed; then
    either nothing else happens (with [--analyze-only]), or the record
    is written and two more lines are printed, or writing fails, leaving
    the file system as the failed call left it. *)
Lemma main_analyze_cases (args : Args) (w : fs) (out : list string)
    (prd : string) (arch : option string) :
  exists (report : list string) (record : json),
    length report = 17%nat /\
    generate_prd_json prd arch (output args) now = Some record /\
    main_analyze' args w out prd arch
    = if analyze_only args then (w, out ++ report, Returned)
      else
        if (write_text w (output args) (json_dumps record)).2
        then
          ((write_text w (output args) (json_dumps record)).1,
           (out ++ report)
           ++ [nl ++ "  Generated: " ++ path_str (output args);
               "  Note: User stories need to be populated manually or via /autonomous-agent-loop convert"]%string,
           Returned)
        else
          ((write_text w (output args) (json_dumps record)).1,
           out ++ report, Raised).
Proof.
  destruct (report_total prd arch) as (f & report & Hf & Hp & Hlen).
  destruct (record_total prd arch (output args)) as [record Hrec].
  exists report, record. split; [exact Hlen|]. split; [exact Hrec|].
  unfold main_analyze. rewrite Hf, Hp. cbv zeta.
  destruct (analyze_only args); [reflexivity|].
  rewrite Hrec.
  destruct (write_text w (output args) (json_dumps record)) as [w' ok].
  destruct ok; reflexivity.
Qed.




(** What was printed before the analysis stays in front, and nothing
    else depends on it. *)
Lemma main_analyze_out (args : Args) (w : fs) (out : list string)
    (prd : string) (arch : option string) :
  main_analyze' args w out prd arch
  = ((main_analyze' args w [] prd arch).1.1,
     out ++ (main_analyze' args w [] prd arch).1.2,
     (main_analyze' args w [] prd arch).2).
Proof.
  unfold main_analyze.
  destruct (analyze _); [|cbn; rewrite app_nil_r; reflexivity].
  destruct (print_analysis _); [|cbn; rewrite app_nil_r; reflexivity].
  cbv zeta. destruct (analyze_only args); [reflexivity|].
  destruct (generate_prd_json _ _ _ _); [|reflexivity].
  destruct (write_text _ _ _) as [w' ok].
  destruct ok; [|reflexivity].
  cbn [fst snd app]. rewrite app_assoc. reflexivity.
Qed.

(** The second half of [main] reads two of the arguments only. *)
Lemma main_analyze_args (args args' : Args) (w : fs) (out : list string)
    (prd : string) (arch : option string) :
  output args' = output args -> analyze_only args' = analyze_only args ->
  main_analyze' args' w out prd arch = main_analyze' args w out prd arch.
Proof. intros Ho Ha. unfold main_analyze. rewrite Ho, Ha. reflexivity. Qed.

End MainProps.



(** ** User stories *)

Lemma map_JStr_inj (l m : list string) : map JStr l = map JStr m -> l = m.
Proof.
  revert m. induction l as [|x l IH]; intros [|y m] H; try discriminate.
  - reflexivity.
  - cbn [map] in H. injection H as Hx Hl. f_equal; [exact Hx | apply IH, Hl].
Qed.

(** X14. [to_dict] loses nothing of a user story: two stories have the
    same dictionary exactly when all their seven fields agree. *)
Theorem to_dict_faithful (a b : UserStory) :
  to_dict a = to_dict b <-> a = b.
Proof.
  split; [|intros ->; reflexivity].
  destruct a, b. unfold to_dict. cbn [story_id title description
    acceptance_criteria priority passes notes].
  intros H. injection H as H1 H2 H3 H4 H5 H6 H7.
  apply map_JStr_inj in H4. congruence.
Qed.

(** ** Slugs and titles without regular expressions *)

(** *** Characters *)

Lemma small_lower (c : ascii) : small c = Re.lower c.
Proof. destruct c as [[] [] [] [] [] [] [] []]; reflexivity. Qed.

Lemma is_blank_space (c : ascii) : is_blank c = Re.is_space c.
Proof. destruct c as [[] [] [] [] [] [] [] []]; reflexivity. Qed.

Lemma is_break_newline (c : ascii) : is_break c = (c =? Re.newline)%char.
Proof. destruct c as [[] [] [] [] [] [] [] []]; reflexivity. Qed.

Lemma is_hash_eqb (c : ascii) : is_hash c = ("#" =? c)%char.
Proof. destruct c as [[] [] [] [] [] [] [] []]; reflexivity. Qed.

Lemma is_hyphen_eqb (c : ascii) :
  is_hyphen c = existsb (Ascii.eqb c) ["-"%char].
Proof. destruct c as [[] [] [] [] [] [] [] []]; reflexivity. Qed.

Lemma is_small_alnum (c : ascii) :
  Re.is_upper c = false -> is_small c = Re.is_alnum c.
Proof.
  destruct c as [[] [] [] [] [] [] [] []]; intros H;
    reflexivity || discriminate H.
Qed.

Lemma is_break_blank (c : ascii) : is_break c = true -> is_blank c = true.
Proof.
  rewrite is_break_newline. intros H. apply Ascii.eqb_eq in H. subst.
  reflexivity.
Qed.

Lemma space_set (c : ascii) :
  Re.set_match true false [Re.Space] c = Re.is_space c.
Proof. destruct c as [[] [] [] [] [] [] [] []]; reflexivity. Qed.

Lemma chr_match_newline (ic : bool) (c : ascii) :
  Re.chr_match ic Re.newline c = (c =? Re.newline)%char.
Proof. destruct ic; destruct c as [[] [] [] [] [] [] [] []]; reflexivity. Qed.

Lemma lower_lower (c : ascii) : Re.lower (Re.lower c) = Re.lower c.
Proof. destruct c as [[] [] [] [] [] [] [] []]; reflexivity. Qed.

Lemma in_lower_case_str_lower (s : Re.str) : in_lower_case (Re.str_lower s).
Proof.
  induction s as [|c s IH]; constructor; [apply lower_lower | exact IH].
Qed.

(** *** The slug *)

Lemma hyphenate_collapse_runs (in_run : bool) (s : Re.str) :
  lowered s -> hyphenate in_run s = collapse_runs in_run s.
Proof.
  intros Hs. revert in_run.
  induction Hs as [|c s Hc Hs IH]; intros in_run; [reflexivity|].
  cbn [hyphenate collapse_runs]. rewrite (is_small_alnum c Hc), !IH.
  reflexivity.
Qed.

Lemma skip_lstrip (p q : ascii -> bool) (s : Re.str) :
  (forall c, p c = q c) -> skip p s = Re.lstrip q s.
Proof.
  intros Hpq. induction s as [|c s IH]; [reflexivity|].
  cbn [skip Re.lstrip]. rewrite Hpq, IH. reflexivity.
Qed.

Lemma lstrip_app_keep (p : ascii -> bool) (s t : Re.str) :
  Re.lstrip p s <> [] -> Re.lstrip p (s ++ t) = Re.lstrip p s ++ t.
Proof.
  induction s as [|c s IH]; cbn [Re.lstrip app]; [congruence|].
  destruct (p c); [exact IH | reflexivity].
Qed.

Lemma lstrip_app_all (p : ascii -> bool) (s t : Re.str) :
  Re.lstrip p s = [] -> Re.lstrip p (s ++ t) = Re.lstrip p t.
Proof.
  induction s as [|c s IH]; cbn [Re.lstrip app]; [reflexivity|].
  destruct (p c); [exact IH | discriminate].
Qed.

Lemma drop_end_lstrip (p q : ascii -> bool) (s : Re.str) :
  (forall c, p c = q c) -> drop_end p s = rev (Re.lstrip q (rev s)).
Proof.
  intros Hpq. induction s as [|c s IH]; [reflexivity|].
  cbn [drop_end rev]. rewrite IH.
  destruct (Re.lstrip q (rev s)) as [|d u] eqn:E.
  - rewrite (lstrip_app_all q _ [c] E). cbn [rev Re.lstrip].
    rewrite <- Hpq. destruct (p c); reflexivity.
  - rewrite (lstrip_app_keep q (rev s) [c]) by (rewrite E; discriminate).
    rewrite E, rev_app_distr. cbn [rev app].
    destruct (rev u ++ [d]) as [|e v] eqn:E'; [|reflexivity].
    destruct (rev u); discriminate E'.
Qed.

Lemma trim_strip_with (p q : ascii -> bool) (s : Re.str) :
  (forall c, p c = q c) -> trim p s = Re.strip_with q s.
Proof.
  intros Hpq. unfold trim, Re.strip_with.
  rewrite (skip_lstrip p q s Hpq). apply drop_end_lstrip, Hpq.
Qed.

(** The slug, written on the characters, is the slug of the code. *)
Lemma slug_spec_slugify (g : Re.str) :
  string_of_list_ascii (slug (trim is_blank g)) = spec_slugify (Re.strip g).
Proof.
  unfold slug, spec_slugify, Re.strip, Re.strip_chars. f_equal.
  rewrite (trim_strip_with is_blank Re.is_space g is_blank_space).
  rewrite (map_ext small Re.lower small_lower).
  change (map Re.lower ?s) with (Re.str_lower s).
  rewrite (hyphenate_collapse_runs false _ (lowered_str_lower _)).
  apply trim_strip_with, is_hyphen_eqb.
Qed.

(** *** The matcher on the parts of the title patterns *)

Lemma chr_match_lower (c x : ascii) :
  Re.lower x = x -> Re.chr_match true c x = (Re.lower c =? x)%char.
Proof. intros H. unfold Re.chr_match. rewrite H. reflexivity. Qed.

Lemma after_prefix_app (p s r : list ascii) :
  after_prefix p s = Some r -> s = p ++ r.
Proof.
  revert s. induction p as [|a p IH]; intros [|c s]; cbn [after_prefix app];
    try discriminate; try (intros [= <-]; reflexivity).
  destruct (Ascii.eqb_spec a c); [|discriminate]. subst.
  intros H. f_equal. exact (IH _ H).
Qed.

Lemma after_prefix_lower (p s r : list ascii) :
  in_lower_case s -> after_prefix p s = Some r -> in_lower_case r.
Proof.
  intros Hs H. apply after_prefix_app in H. subst.
  apply Forall_app in Hs. apply Hs.
Qed.

(** A word matches the text that begins with it, in lower case. *)
Lemma run_word (c : ascii) (w : list ascii) (s : Re.str) (cs : Re.caps)
    (k : Re.cont) :
  in_lower_case s ->
  Re.run (word c w) true s cs k
  = match after_prefix (map Re.lower (c :: w)) s with
    | Some s' => k s' cs
    | None => None
    end.
Proof.
  revert c s. induction w as [|d w IH]; intros c s Hs;
    cbn [word Re.run map after_prefix].
  - destruct s as [|x s']; [reflexivity|]. inversion Hs; subst.
    rewrite chr_match_lower by assumption.
    destruct (Re.lower c =? x)%char; reflexivity.
  - destruct s as [|x s']; [reflexivity|]. inversion Hs; subst.
    rewrite chr_match_lower by assumption.
    destruct (Re.lower c =? x)%char; [|reflexivity].
    rewrite IH by assumption. reflexivity.
Qed.

(** The greedy loop over white space tries the longest run first. *)
Lemma star_white_space (k : Re.cont) (n : nat) (s : Re.str) (cs : Re.caps) :
  (length s <= n)%nat ->
  Re.star_loop (Re.run (Re.Set_ false [Re.Space]) true) true k n s cs
  = longest_first (fun s' => k s' cs) s.
Proof.
  revert s. induction n as [|n IH]; intros s Hn.
  - destruct s; [|cbn in Hn; lia]. rewrite star_loop_O. reflexivity.
  - rewrite star_loop_S. unfold again. cbn [Re.run].
    destruct s as [|x t]; cbn [longest_first]; [reflexivity|].
    rewrite space_set. destruct (Re.is_space x); [|reflexivity].
    replace (length t <? length (x :: t))%nat with true
      by (symmetry; apply Nat.ltb_lt; cbn; lia).
    rewrite IH by (cbn in Hn; lia). unfold Re.or_else.
    destruct (longest_first _ t); reflexivity.
Qed.

Lemma run_white_space (s : Re.str) (cs : Re.caps) (k : Re.cont) :
  Re.run white_space true s cs k = longest_first (fun s' => k s' cs) s.
Proof. apply star_white_space. lia. Qed.

(** Lines. *)
Lemma line_past_line (s : Re.str) : line s ++ past_line s = s.
Proof.
  induction s as [|c s IH]; [reflexivity|]. cbn [line past_line].
  destruct (is_break c); [reflexivity|]. cbn [app]. rewrite IH. reflexivity.
Qed.

Lemma firstn_line (s : Re.str) :
  firstn (length s - length (past_line s)) s = line s.
Proof.
  rewrite <- (line_past_line s) at 1 3. rewrite length_app.
  replace (length (line s) + length (past_line s) - length (past_line s))%nat
    with (length (line s)) by lia.
  rewrite firstn_app, Nat.sub_diag, firstn_all, firstn_O, app_nil_r.
  reflexivity.
Qed.

Lemma firstn_line_cons (x : ascii) (t : Re.str) :
  is_break x = false ->
  firstn (length (x :: t) - length (past_line t)) (x :: t) = line (x :: t).
Proof.
  intros Hx. rewrite <- (firstn_line (x :: t)). cbn [past_line].
  rewrite Hx. reflexivity.
Qed.

Lemma past_line_head (s : Re.str) (y : ascii) (u : Re.str) :
  past_line s = y :: u -> is_break y = true.
Proof.
  induction s as [|c s IH]; cbn [past_line]; [discriminate|].
  destruct (is_break c) eqn:E; [|exact IH]. intros [= <- _]. exact E.
Qed.

(** The greedy loop over a line goes to its end when the continuation
    succeeds there. *)
Lemma greedy_dots (ic : bool) (k : Re.cont) (n : nat) (s : Re.str)
    (cs : Re.caps) :
  (length s <= n)%nat -> is_Some (k (past_line s) cs) ->
  Re.star_loop (Re.run Re.Dot ic) true k n s cs = k (past_line s) cs.
Proof.
  revert s. induction n as [|n IH]; intros s Hn Hk.
  - destruct s; [|cbn in Hn; lia]. rewrite star_loop_O. reflexivity.
  - rewrite star_loop_S. unfold again. cbn [Re.run].
    destruct s as [|x t]; [reflexivity|]. cbn [past_line] in *.
    rewrite is_break_newline in *.
    destruct (x =? Re.newline)%char; [reflexivity|].
    replace (length t <? length (x :: t))%nat with true
      by (symmetry; apply Nat.ltb_lt; cbn; lia).
    rewrite IH by (cbn in Hn; lia || exact Hk).
    destruct Hk as [r ->]. reflexivity.
Qed.

(** The lazy loop over a line goes to its end when the continuation
    fails before. *)
Lemma lazy_dots (ic : bool) (k : Re.cont) (n : nat) (s : Re.str)
    (cs : Re.caps) :
  (length s <= n)%nat ->
  (forall x t, is_break x = false -> k (x :: t) cs = None) ->
  Re.star_loop (Re.run Re.Dot ic) false k n s cs = k (past_line s) cs.
Proof.
  revert s. induction n as [|n IH]; intros s Hn Hk.
  - destruct s; [|cbn in Hn; lia]. rewrite star_loop_O. reflexivity.
  - rewrite star_loop_S. unfold again. cbn [Re.run]. unfold Re.or_else.
    destruct s as [|x t]; cbn [past_line];
      [destruct (k [] cs); reflexivity|].
    destruct (is_break x) eqn:Hx.
    + rewrite is_break_newline in Hx. rewrite Hx.
      destruct (k (x :: t) cs); reflexivity.
    + rewrite (Hk x t Hx). rewrite is_break_newline in Hx. rewrite Hx.
      replace (length t <? length (x :: t))%nat with true
        by (symmetry; apply Nat.ltb_lt; cbn; lia).
      apply IH; [cbn in Hn; lia | exact Hk].
Qed.

(** [(.+)] at the end of a pattern takes the rest of the line. *)
Lemma run_rest_of_line (ic : bool) (s : Re.str) (cs : Re.caps) :
  caps_of (Re.run rest_of_line ic s cs finish)
  = match s with
    | x :: _ => if is_break x then None else Some ((1%nat, line s) :: cs)
    | [] => None
    end.
Proof.
  unfold rest_of_line. cbn [Re.run]. destruct s as [|x t]; [reflexivity|].
  destruct (is_break x) eqn:Hx; rewrite is_break_newline in Hx; rewrite Hx;
    [reflexivity|].
  rewrite (greedy_dots ic); [|lia|eexists; reflexivity].
  unfold finish, caps_of. cbn [snd].
  rewrite <- is_break_newline in Hx. rewrite (firstn_line_cons x t Hx).
  reflexivity.
Qed.

(** [(.+?)(?:\n|$)] takes the rest of the line too. *)
Lemma run_up_to_break (ic : bool) (s : Re.str) (cs : Re.caps) :
  caps_of (Re.run up_to_break ic s cs finish)
  = match s with
    | x :: _ => if is_break x then None else Some ((1%nat, line s) :: cs)
    | [] => None
    end.
Proof.
  unfold up_to_break. cbn [Re.run]. destruct s as [|x t]; [reflexivity|].
  destruct (is_break x) eqn:Hx; rewrite is_break_newline in Hx; rewrite Hx;
    [reflexivity|].
  rewrite <- is_break_newline in Hx.
  rewrite (lazy_dots ic); [|lia|].
  - rewrite (firstn_line_cons x t Hx).
    destruct (past_line t) as [|y u] eqn:E; [reflexivity|].
    apply past_line_head in E. rewrite is_break_newline in E.
    apply Ascii.eqb_eq in E. subst y. rewrite chr_match_newline.
    reflexivity.
  - intros y u Hy. rewrite chr_match_newline.
    rewrite is_break_newline in Hy. rewrite Hy. cbn [Re.or_else].
    destruct u; rewrite ?Hy; reflexivity.
Qed.

(** *** Titles *)

Lemma run_cat (a b : Re.regex) (ic : bool) (s : Re.str) (cs : Re.caps)
    (k : Re.cont) :
  Re.run (Re.Cat a b) ic s cs k
  = Re.run a ic s cs (fun s' cs' => Re.run b ic s' cs' k).
Proof. reflexivity. Qed.

Lemma run_alt (a b : Re.regex) (ic : bool) (s : Re.str) (cs : Re.caps)
    (k : Re.cont) :
  Re.run (Re.Alt a b) ic s cs k
  = Re.or_else (Re.run a ic s cs k) (fun _ => Re.run b ic s cs k).
Proof. reflexivity. Qed.

Lemma run_chr (c : ascii) (ic : bool) (s : Re.str) (cs : Re.caps)
    (k : Re.cont) :
  Re.run (Re.Chr c) ic s cs k
  = match s with
    | x :: s' => if Re.chr_match ic c x then k s' cs else None
    | [] => None
    end.
Proof. reflexivity. Qed.

Lemma caps_of_or_else (a : option Re.result) (b : unit -> option Re.result) :
  caps_of (Re.or_else a b)
  = match caps_of a with Some cs => Some cs | None => caps_of (b tt) end.
Proof. destruct a; reflexivity. Qed.

Lemma title_after_none_line (s : Re.str) : title_after s = None -> line s = [].
Proof.
  destruct s as [|c t]; [reflexivity|]. cbn [title_after line].
  destruct (is_blank c); [|discriminate].
  destruct (title_after t); [discriminate|].
  destruct (is_break c); [reflexivity | discriminate].
Qed.

Lemma longest_first_caps (K : Re.str -> option Re.result) (s : Re.str) :
  caps_of (longest_first K s) = longest_first (fun s' => caps_of (K s')) s.
Proof.
  induction s as [|c t IH]; cbn [longest_first]; [reflexivity|].
  destruct (Re.is_space c); [|reflexivity].
  rewrite <- IH. destruct (longest_first K t); reflexivity.
Qed.

(** After the white space, a title: the loop stops at the first place,
    from the longest run of white space down, where a line begins. *)
Lemma longest_first_title (cs : Re.caps) (K : Re.str -> option Re.caps)
    (s : Re.str) :
  (forall s,
     K s = match s with
           | x :: _ =>
               if is_break x then None else Some ((1%nat, line s) :: cs)
           | [] => None
           end) ->
  longest_first K s = option_map (fun g => (1%nat, g) :: cs) (title_after s).
Proof.
  intros HK. induction s as [|c t IH]; cbn [longest_first title_after].
  - rewrite HK. reflexivity.
  - rewrite <- is_blank_space. destruct (is_blank c) eqn:Hb.
    + rewrite IH. destruct (title_after t) as [g|] eqn:E; [reflexivity|].
      cbn [option_map]. rewrite HK. cbn [line].
      destruct (is_break c); [reflexivity|].
      rewrite (title_after_none_line t E). reflexivity.
    + rewrite HK. destruct (is_break c) eqn:Hc; [|reflexivity].
      apply is_break_blank in Hc. congruence.
Qed.

(** After the white space, something that does not begin with white
    space: only the longest run of white space can do. *)
Lemma longest_first_commit (A : Type) (K : Re.str -> option A) (s : Re.str) :
  (forall c t, Re.is_space c = true -> K (c :: t) = None) ->
  longest_first K s = K (skip is_blank s).
Proof.
  intros HK. induction s as [|c t IH]; cbn [longest_first skip]; [reflexivity|].
  rewrite is_blank_space. destruct (Re.is_space c) eqn:Hc; [|reflexivity].
  rewrite IH. destruct (K (skip is_blank t)); [reflexivity|].
  apply HK, Hc.
Qed.

Lemma white_then_title (T : Re.regex) (cs : Re.caps) (s : Re.str) :
  (forall s,
     caps_of (Re.run T true s cs finish)
     = match s with
       | x :: _ =>
           if is_break x then None else Some ((1%nat, line s) :: cs)
       | [] => None
       end) ->
  caps_of (Re.run (Re.Cat white_space T) true s cs finish)
  = option_map (fun g => (1%nat, g) :: cs) (title_after s).
Proof.
  intros HT. rewrite run_cat, run_white_space, longest_first_caps.
  apply longest_first_title, HT.
Qed.

(** *** The leftmost match *)

Lemma search_leftmost (r : Re.regex) (ic : bool) (s : Re.str) :
  caps_of (Re.search r ic s)
  = leftmost (fun t => caps_of (Re.match_here r ic t)) s.
Proof.
  induction s as [|x s IH]; cbn [Re.search leftmost].
  - destruct (Re.match_here r ic []); reflexivity.
  - destruct (Re.match_here r ic (x :: s)); [reflexivity | exact IH].
Qed.

Lemma leftmost_ext (A : Type) (P : ascii -> Prop)
    (f g : list ascii -> option A) (s : list ascii) :
  Forall P s -> (forall t, Forall P t -> f t = g t) ->
  leftmost f s = leftmost g s.
Proof.
  intros Hs Hfg. induction Hs as [|x s Hx Hs IH]; cbn [leftmost].
  - rewrite (Hfg [] (Forall_nil_2 _)). reflexivity.
  - rewrite (Hfg (x :: s) (Forall_cons_2 _ _ _ Hx Hs)), IH. reflexivity.
Qed.

Lemma leftmost_map (A B : Type) (h : A -> B) (f : list ascii -> option A)
    (s : list ascii) :
  leftmost (fun t => option_map h (f t)) s = option_map h (leftmost f s).
Proof.
  induction s as [|x s IH]; cbn [leftmost].
  - destruct (f []); reflexivity.
  - destruct (f (x :: s)); [reflexivity | exact IH].
Qed.

(** Group 1 of the leftmost match of a pattern, from what a match at one
    place is. *)
Lemma first_group_leftmost (pattern text : string) (r : Re.regex)
    (found : list ascii -> option (list ascii)) :
  Re.compile pattern = Some r ->
  in_lower_case (list_ascii_of_string text) ->
  (forall t, in_lower_case t ->
     caps_of (Re.match_here r true t)
     = option_map (fun g => [(1%nat, g)]) (found t)) ->
  first_group pattern text = leftmost found (list_ascii_of_string text).
Proof.
  intros Hr Ht Hfound. unfold first_group. rewrite Hr.
  pose proof (search_leftmost r true (list_ascii_of_string text)) as H.
  rewrite (leftmost_ext _ (fun c => Re.lower c = c)
             (fun t => caps_of (Re.match_here r true t))
             (fun t => option_map (fun g => [(1%nat, g)]) (found t))
             _ Ht Hfound), leftmost_map in H.
  destruct (Re.search r true _) as [[rest groups]|];
    destruct (leftmost found _) as [g|]; cbn in H; try discriminate H.
  - injection H as ->. reflexivity.
  - reflexivity.
Qed.

(** *** The three patterns *)

Lemma compile_labelled_heading :
  Re.compile "#\s*(?:PRD|Feature|Product Requirements):\s*(.+)"
  = Some labelled_heading_re.
Proof. vm_compute. reflexivity. Qed.

Lemma compile_heading : Re.compile "#\s*(.+?)(?:\n|$)" = Some heading_re.
Proof. vm_compute. reflexivity. Qed.

Lemma compile_inline_label :
  Re.compile "(?:feature|project):\s*(.+?)(?:\n|$)" = Some inline_label_re.
Proof. vm_compute. reflexivity. Qed.

Lemma heading_mark (T : Re.regex) (s : Re.str) :
  in_lower_case s ->
  Re.match_here (Re.Cat (Re.Chr "#") T) true s
  = match s with
    | x :: t => if is_hash x then Re.run T true t [] finish else None
    | [] => None
    end.
Proof.
  intros Hs. unfold Re.match_here. rewrite run_cat, run_chr.
  destruct s as [|x t]; [reflexivity|]. inversion Hs; subst.
  rewrite chr_match_lower by assumption. rewrite is_hash_eqb. reflexivity.
Qed.

(** The second pattern: a heading mark and a title. *)
Lemma match_heading (s : Re.str) :
  in_lower_case s ->
  caps_of (Re.match_here heading_re true s)
  = option_map (fun g => [(1%nat, g)]) (heading_at s).
Proof.
  intros Hs. unfold heading_re. rewrite (heading_mark _ s Hs).
  destruct s as [|x t]; [reflexivity|]. cbn [heading_at].
  destruct (is_hash x); [|reflexivity].
  apply white_then_title. intros s. apply run_up_to_break.
Qed.

(** *** Labels *)

Lemma after_prefix_snoc (p : list ascii) (a : ascii) (s : list ascii) :
  after_prefix (p ++ [a]) s
  = match after_prefix p s with
    | Some (x :: r) => if (a =? x)%char then Some r else None
    | _ => None
    end.
Proof.
  revert s. induction p as [|b p IH]; intros s; cbn [app after_prefix].
  - destruct s as [|x r]; [reflexivity|].
    destruct (a =? x)%char; reflexivity.
  - destruct s as [|x r]; [reflexivity|].
    destruct (b =? x)%char; [apply IH | reflexivity].
Qed.

(** A word and a colon: the text begins with the label. *)
Lemma run_word_colon (c : ascii) (w : list ascii) (T : Re.regex)
    (s : Re.str) (cs : Re.caps) (k : Re.cont) :
  in_lower_case s ->
  Re.run (word c w) true s cs
    (fun s' cs' => Re.run (Re.Cat (Re.Chr ":") T) true s' cs' k)
  = match after_prefix (map Re.lower (c :: w) ++ [":"%char]) s with
    | Some r => Re.run T true r cs k
    | None => None
    end.
Proof.
  intros Hs. rewrite (run_word c w s cs _ Hs), after_prefix_snoc.
  destruct (after_prefix (map Re.lower (c :: w)) s) as [r|] eqn:E;
    [|reflexivity].
  rewrite run_cat, run_chr. destruct r as [|x r']; [reflexivity|].
  pose proof (after_prefix_lower _ _ _ Hs E) as Hr. inversion Hr; subst.
  rewrite chr_match_lower by assumption.
  change (Re.lower ":") with ":"%char.
  destruct (":" =? x)%char; reflexivity.
Qed.

(** Two labels that differ at some place do not begin the same text. *)
Lemma after_prefix_clash (v w s r : list ascii) :
  clash v w = true -> after_prefix v s = Some r -> after_prefix w s = None.
Proof.
  revert w s. induction v as [|a v IH]; intros [|b w] [|c s];
    cbn [clash after_prefix]; try discriminate; try reflexivity.
  destruct (Ascii.eqb_spec a c) as [->|Hac]; [|discriminate].
  destruct (Ascii.eqb_spec b c) as [->|Hbc]; [|reflexivity].
  rewrite Ascii.eqb_refl. cbn [negb orb]. apply IH.
Qed.

Lemma skip_lower (p : ascii -> bool) (s : Re.str) :
  in_lower_case s -> in_lower_case (skip p s).
Proof.
  induction 1 as [|c s Hc Hs IH]; cbn [skip]; [constructor|].
  destruct (p c); [exact IH | constructor; assumption].
Qed.

(** No label begins with white space. *)
Lemma blank_no_label (c : ascii) :
  Re.is_space c = true ->
  Re.chr_match true "P" c = false /\ Re.chr_match true "F" c = false /\
  Re.chr_match true "p" c = false /\ Re.chr_match true "f" c = false.
Proof.
  destruct c as [[] [] [] [] [] [] [] []]; intros H;
    (discriminate H || (repeat split; reflexivity)).
Qed.

(** The first pattern: a heading mark, white space, a label, a title. *)
Lemma match_labelled_heading (s : Re.str) :
  in_lower_case s ->
  caps_of (Re.match_here labelled_heading_re true s)
  = option_map (fun g => [(1%nat, g)]) (labelled_heading_at s).
Proof.
  intros Hs. unfold labelled_heading_re. rewrite (heading_mark _ s Hs).
  destruct s as [|x t]; [reflexivity|]. cbn [labelled_heading_at].
  destruct (is_hash x); [|reflexivity]. inversion Hs; subst.
  rewrite run_cat, run_white_space, longest_first_caps.
  rewrite longest_first_commit.
  2: { intros c u Hc. destruct (blank_no_label c Hc) as (HP & HF & _).
       rewrite run_cat, !run_alt.
       cbn [word list_ascii_of_string]. rewrite !run_cat, !run_chr.
       rewrite HP, HF. reflexivity. }
  set (u := skip is_blank t).
  assert (Hu : in_lower_case u) by (apply skip_lower; assumption).
  rewrite run_cat, !run_alt.
  rewrite !(run_word_colon _ _ _ u [] finish Hu).
  change (map Re.lower ("P"%char :: list_ascii_of_string "RD") ++ [":"%char])
    with (list_ascii_of_string "prd:").
  change (map Re.lower ("F"%char :: list_ascii_of_string "eature")
          ++ [":"%char])
    with (list_ascii_of_string "feature:").
  change (map Re.lower ("P"%char :: list_ascii_of_string "roduct Requirements")
          ++ [":"%char])
    with (list_ascii_of_string "product requirements:").
  unfold heading_labels. cbn [after_label].
  rewrite caps_of_or_else. cbv beta. rewrite caps_of_or_else. cbv beta.
  assert (HT : forall r,
            caps_of (Re.run (Re.Cat white_space rest_of_line) true r [] finish)
            = option_map (fun g => [(1%nat, g)]) (title_after r)).
  { intros r. apply white_then_title. intros s'. apply run_rest_of_line. }
  destruct (after_prefix (list_ascii_of_string "prd:") u) as [r|] eqn:E1.
  { rewrite (after_prefix_clash (list_ascii_of_string "prd:") (list_ascii_of_string "feature:") _ _
               eq_refl E1).
    rewrite (after_prefix_clash (list_ascii_of_string "prd:")
               (list_ascii_of_string "product requirements:") _ _ eq_refl E1).
    rewrite HT. destruct (title_after r); reflexivity. }
  destruct (after_prefix (list_ascii_of_string "feature:") u) as [r|] eqn:E2.
  { rewrite (after_prefix_clash (list_ascii_of_string "feature:")
               (list_ascii_of_string "product requirements:") _ _ eq_refl E2).
    rewrite HT. destruct (title_after r); reflexivity. }
  destruct (after_prefix (list_ascii_of_string "product requirements:") u)
    as [r|] eqn:E3; [|reflexivity].
  rewrite HT. destruct (title_after r); reflexivity.
Qed.

(** The third pattern: a label and a title. *)
Lemma match_inline_label (s : Re.str) :
  in_lower_case s ->
  caps_of (Re.match_here inline_label_re true s)
  = option_map (fun g => [(1%nat, g)]) (inline_label_at s).
Proof.
  intros Hs. unfold inline_label_re, Re.match_here, inline_label_at.
  rewrite run_cat, !run_alt.
  rewrite !(run_word_colon _ _ _ s [] _ Hs).
  change (map Re.lower ("f"%char :: list_ascii_of_string "eature")
          ++ [":"%char])
    with (list_ascii_of_string "feature:").
  change (map Re.lower ("p"%char :: list_ascii_of_string "roject")
          ++ [":"%char])
    with (list_ascii_of_string "project:").
  unfold inline_labels. cbn [after_label].
  rewrite caps_of_or_else. cbv beta.
  assert (HT : forall r,
            caps_of (Re.run (Re.Cat white_space up_to_break) true r []
                       (fun s' cs => Some (s', cs)))
            = option_map (fun g => [(1%nat, g)]) (title_after r)).
  { intros r. apply (white_then_title up_to_break [] r).
    intros s'. apply run_up_to_break. }
  destruct (after_prefix (list_ascii_of_string "feature:") s) as [r|] eqn:E1.
  { rewrite (after_prefix_clash (list_ascii_of_string "feature:") (list_ascii_of_string "project:") _ _
               eq_refl E1).
    rewrite HT. destruct (title_after r); reflexivity. }
  destruct (after_prefix (list_ascii_of_string "project:") s) as [r|] eqn:E2;
    [|reflexivity].
  rewrite HT. destruct (title_after r); reflexivity.
Qed.

(** The three searches of [extract_feature_name], on a lower-cased
    text. *)
Lemma first_groups_of_titles (text : string) :
  in_lower_case (list_ascii_of_string text) ->
  first_group "#\s*(?:PRD|Feature|Product Requirements):\s*(.+)" text
  = leftmost labelled_heading_at (list_ascii_of_string text) /\
  first_group "#\s*(.+?)(?:\n|$)" text
  = leftmost heading_at (list_ascii_of_string text) /\
  first_group "(?:feature|project):\s*(.+?)(?:\n|$)" text
  = leftmost inline_label_at (list_ascii_of_string text).
Proof.
  intros Ht. split; [|split].
  - exact (first_group_leftmost _ _ _ _ compile_labelled_heading Ht
             match_labelled_heading).
  - exact (first_group_leftmost _ _ _ _ compile_heading Ht match_heading).
  - exact (first_group_leftmost _ _ _ _ compile_inline_label Ht
             match_inline_label).
Qed.

(** The feature name of the code is the feature name read off the
    text. *)
Lemma spec_feature_name_of (prd : string) :
  spec_feature_name (str_lower prd) = feature_name_of prd.
Proof.
  assert (Ht : in_lower_case (list_ascii_of_string (str_lower prd))).
  { rewrite list_ascii_str_lower. apply in_lower_case_str_lower. }
  destruct (first_groups_of_titles _ Ht) as (H1 & H2 & H3).
  unfold spec_feature_name, feature_name_of, feature_title.
  rewrite H1, H2, H3, list_ascii_str_lower.
  rewrite (map_ext small Re.lower small_lower).
  change (map Re.lower ?s) with (Re.str_lower s). clear H1 H2 H3.
  destruct (leftmost labelled_heading_at _) as [g|];
    [symmetry; exact (slug_spec_slugify g)|].
  destruct (leftmost heading_at _) as [g|];
    [symmetry; exact (slug_spec_slugify g)|].
  destruct (leftmost inline_label_at _) as [g|];
    [symmetry; exact (slug_spec_slugify g) | reflexivity].
Qed.

(** *** The feature name *)

Lemma extract_feature_name_of (prd : string) (arch : option string) :
  extract_feature_name (ComplexityAnalyzer_init prd arch)
  = Some (feature_name_of prd).
Proof.
  unfold extract_feature_name.
  rewrite content_init, feature_name_loop_spec, spec_feature_name_of.
  reflexivity.
Qed.

Lemma is_break_small (c : ascii) : is_break (small c) = is_break c.
Proof. destruct c as [[] [] [] [] [] [] [] []]; reflexivity. Qed.

Lemma line_map_small (s : list ascii) : line (map small s) = map small (line s).
Proof.
  induction s as [|c s IH]; [reflexivity|]. cbn [map line].
  rewrite is_break_small. destruct (is_break c); [reflexivity|].
  cbn [map]. rewrite IH. reflexivity.
Qed.

Lemma leftmost_cons_none (A : Type) (f : list ascii -> option A) (c : ascii)
    (t : list ascii) :
  f (c :: t) = None -> leftmost f (c :: t) = leftmost f t.
Proof. intros H. cbn [leftmost]. rewrite H. reflexivity. Qed.

Lemma leftmost_here (A : Type) (f : list ascii -> option A) (s : list ascii)
    (a : A) :
  f s = Some a -> leftmost f s = Some a.
Proof. intros H. destruct s; cbn [leftmost]; rewrite H; reflexivity. Qed.

(** C8.  Whatever the architecture text, [extract_feature_name] returns
    the feature name read off the lower-cased PRD text alone, without
    regular expressions: the title of the leftmost labelled heading (a
    heading mark, white space if any, "prd:", "feature:" or "product
    requirements:"), else of the leftmost heading mark that a title
    follows, else of the leftmost inline label "feature:" or "project:";
    the title without the white space around it is turned into its slug
    (lower case, every run of characters other than a-z and 0-9 replaced
    by one "-", no "-" at either end); without any title the name is
    "feature".  A PRD whose first line is "# My Great Feature" gives
    "my-great-feature" when no labelled heading follows in the text.  A
    heading mark counts wherever it stands in its line: "Fix issue #12
    today" gives "12-today". *)
Theorem extract_feature_name_spec :
  (forall (prd : string) (arch : option string),
     extract_feature_name (ComplexityAnalyzer_init prd arch)
     = Some (feature_name_of prd)) /\
  (forall (rest : string) (arch : option string),
     line (list_ascii_of_string rest) = [] ->
     leftmost labelled_heading_at (map small (list_ascii_of_string rest))
     = None ->
     extract_feature_name
       (ComplexityAnalyzer_init ("# My Great Feature" ++ rest) arch)
     = Some "my-great-feature"%string) /\
  (forall arch : option string,
     extract_feature_name
       (ComplexityAnalyzer_init "Fix issue #12 today" arch)
     = Some "12-today"%string) /\
  (forall arch : option string,
     extract_feature_name
       (ComplexityAnalyzer_init "no heading at all" arch)
     = Some "feature"%string).
Proof.
  split; [exact extract_feature_name_of|].
  split; [|split; intros arch; rewrite extract_feature_name_of;
           vm_compute; reflexivity].
  intros rest arch Hline Hrest. rewrite extract_feature_name_of.
  unfold feature_name_of, feature_title.
  rewrite list_ascii_append, map_app.
  assert (HR : line (map small (list_ascii_of_string rest)) = []).
  { rewrite line_map_small, Hline. reflexivity. }
  set (R := map small (list_ascii_of_string rest)) in *.
  change (map small (list_ascii_of_string "# My Great Feature"))
    with (list_ascii_of_string "# my great feature").
  cbn [list_ascii_of_string app].
  repeat rewrite leftmost_cons_none by reflexivity.
  rewrite Hrest.
  erewrite (leftmost_here _ heading_at) by reflexivity.
  change (Some (string_of_list_ascii
                  (slug (trim is_blank
                           (list_ascii_of_string "my great feature"
                            ++ line R))))
          = Some "my-great-feature"%string).
  rewrite HR. vm_compute. reflexivity.
Qed.

Lemma extract_feature_name_spec_witness :
  extract_feature_name
    (ComplexityAnalyzer_init
       ("# My Great Feature"
        ++ String Re.newline "Users must be able to log in.")
       None)
  = Some "my-great-feature"%string.
Proof.
  apply (proj1 (proj2 extract_feature_name_spec)
           (String Re.newline "Users must be able to log in.") None).
  - reflexivity.
  - vm_compute. reflexivity.
Defined.

(** A text that begins with the heading "# My Great Feature" and does
    not give "my-great-feature": the labelled heading of its second line
    comes first.  And a text in which no line is a heading, whose name
    is not the fallback: the heading mark inside its line counts. *)
Lemma later_labelled_heading_wins :
  (extract_feature_name
     (ComplexityAnalyzer_init
        ("# My Great Feature" ++ String Re.newline "# PRD: Login") None)
   = Some "login"%string /\
   extract_feature_name
     (ComplexityAnalyzer_init
        ("# My Great Feature" ++ String Re.newline "# PRD: Login") None)
   <> Some "my-great-feature"%string) /\
  (extract_feature_name (ComplexityAnalyzer_init "Fix issue #12 today" None)
   = Some "12-today"%string /\
   extract_feature_name (ComplexityAnalyzer_init "Fix issue #12 today" None)
   <> Some "feature"%string).
Proof.
  assert (H : extract_feature_name
                (ComplexityAnalyzer_init
                   ("# My Great Feature" ++ String Re.newline "# PRD: Login")
                   None)
              = Some "login"%string) by (vm_compute; reflexivity).
  assert (H' : extract_feature_name
                 (ComplexityAnalyzer_init "Fix issue #12 today" None)
               = Some "12-today"%string) by (vm_compute; reflexivity).
  split; (split; [assumption|]); [rewrite H | rewrite H']; discriminate.
Qed.
